(** * ezpzdb: the buffered record store and its row container

    A shallow embedding of [src/ezpzdb/db/db.js] (class [Database]) and
    [src/ezpzdb/db/effset.js] (class [EffSet]), with the properties the
    specification states about them.

    Conventions.
    - A JavaScript object used as a dictionary ([storage.tables]) is a
      [gmap string _]; an object whose key order matters (a record that
      [for ... in] walks) is an association list in enumeration order.
    - A JavaScript array with holes is a [list (option _)]: [None] is a
      hole, and reading a hole or reading past the end gives [undefined].
    - Numbers that the code only uses as integers are [Z]; a number that
      may be [NaN] is an [option Z] with [None] for [NaN]. An increment
      gives the nearest double ([js_inc]), which is the successor below
      [2^53].
    - A name that [storage.tables] has no key for may still be answered
      by the prototype chain of the object ([inherits]).
    - A record is a value. The source keeps the caller's object in its
      buffers, so a caller that passes one object to two calls has it
      in the buffers twice, with the id of the later call; here every
      call stores what it was given.
    - A method is a function in the monad [M]: it takes the database
      object and returns what the call returned or threw, together with
      the object as the call left it. *)

From Stdlib Require Import Ascii String DecimalString.
From stdpp Require Import base gmap strings list.

Local Open Scope string_scope.
Local Open Scope Z_scope.
Set Warnings "-register-all".

(** ** JavaScript values *)

Inductive value : Type :=
| VUndef
| VNull
| VBool (b : bool)
| VNum (n : Z)
| VStr (s : string)
| VObj (props : list (string * value)).

(** An object as [for (let key in obj)] enumerates it. *)
Abbreviation object := (list (string * value)).

(** [obj[key]] as an r-value: [undefined] when the key is absent. *)
Fixpoint obj_lookup (key : string) (o : object) : option value :=
  match o with
  | [] => None
  | (k, v) :: o' => if String.eqb k key then Some v else obj_lookup key o'
  end.

Definition obj_get (key : string) (o : object) : value :=
  match obj_lookup key o with Some v => v | None => VUndef end.

(** [obj[key] = v]: an existing key keeps its place, a new key goes last. *)
Fixpoint obj_set (key : string) (v : value) (o : object) : object :=
  match o with
  | [] => [(key, v)]
  | (k, w) :: o' =>
      if String.eqb k key then (k, v) :: o' else (k, w) :: obj_set key v o'
  end.

(** ** Arrays *)

Section Arrays.
Context {A : Type}.

(** [arr[i]] where a hole and an index past the end read as nothing. *)
Definition array_get (i : nat) (arr : list (option A)) : option A :=
  match arr !! i with Some (Some x) => Some x | _ => None end.

(** [arr[i] = x]: in range it overwrites, past the end the array grows
    and the skipped positions are holes. *)
Definition array_set (i : nat) (x : A) (arr : list (option A))
  : list (option A) :=
  if (i <? length arr)%nat then <[i := Some x]> arr
  else arr ++ replicate (i - length arr) None ++ [Some x].

(** [new Array(n)]: [n] holes. *)
Definition new_Array (n : nat) : list (option A) := replicate n None.

(** [arr.find(p)] and [arr.findIndex(p)] on an array without holes. *)
Fixpoint array_find (p : A -> bool) (arr : list A) : option A :=
  match arr with
  | [] => None
  | x :: arr' => if p x then Some x else array_find p arr'
  end.

Fixpoint findIndex_from (p : A -> bool) (arr : list A) (i : Z) : Z :=
  match arr with
  | [] => -1
  | x :: arr' => if p x then i else findIndex_from p arr' (i + 1)
  end.

Definition array_findIndex (p : A -> bool) (arr : list A) : Z :=
  findIndex_from p arr 0.

(** [arr.splice(i, 1)]. *)
Definition splice1 (i : nat) (arr : list A) : list A :=
  take i arr ++ drop (S i) arr.

(** [arr.sort(cmp)]: a stable sort, [cmp a b] being negative, zero or
    positive. An element is put in front of the first element it does
    not come after, which keeps equal elements in their order. *)
Fixpoint sort_insert (cmp : A -> A -> Z) (x : A) (sorted : list A) : list A :=
  match sorted with
  | [] => [x]
  | y :: sorted' =>
      if cmp x y <=? 0 then x :: y :: sorted'
      else y :: sort_insert cmp x sorted'
  end.

Fixpoint array_sort (cmp : A -> A -> Z) (arr : list A) : list A :=
  match arr with
  | [] => []
  | x :: arr' => sort_insert cmp x (array_sort cmp arr')
  end.
End Arrays.

(** [arr.indexOf(key)] on an array of strings; [None] is [-1]. *)
Fixpoint indexOf (key : string) (arr : list string) : option nat :=
  match arr with
  | [] => None
  | k :: arr' => if String.eqb k key then Some 0%nat else S <$> indexOf key arr'
  end.

Definition string_of_nat (n : nat) : string :=
  NilEmpty.string_of_uint (Nat.to_uint n).

(** Names an array inherits from [Array.prototype] and [Object.prototype],
    as of the current runtimes; an older runtime lacks some of the later
    ones ([at], [flat], [flatMap], [findLast], [findLastIndex],
    [toReversed], [toSorted], [toSpliced], [with]). *)
Definition array_proto : list string :=
  [ "constructor"; "concat"; "copyWithin"; "fill"; "find"; "findIndex";
    "lastIndexOf"; "pop"; "push"; "reverse"; "shift"; "unshift"; "slice";
    "sort"; "splice"; "includes"; "indexOf"; "join"; "keys"; "entries";
    "values"; "forEach"; "filter"; "map"; "every"; "some"; "reduce";
    "reduceRight"; "toLocaleString"; "toString"; "hasOwnProperty";
    "isPrototypeOf"; "propertyIsEnumerable"; "valueOf"; "__proto__";
    "__defineGetter__"; "__defineSetter__"; "__lookupGetter__";
    "__lookupSetter__"; "at"; "flat"; "flatMap"; "findLast";
    "findLastIndex"; "toReversed"; "toSorted"; "toSpliced"; "with" ].

(** [key in arr] for an array [arr] of [len] elements without holes: the
    operator asks whether [key] names a property of the array, that is
    one of its indices, [length], or an inherited name. It does not look
    at the elements. *)
Definition key_in_array (key : string) (len : nat) : bool :=
  existsb (fun i => String.eqb key (string_of_nat i)) (seq 0 len)
  || String.eqb key "length"
  || existsb (String.eqb key) array_proto.

(** [parseInt(s)]: leading white space, a sign, [0x] for base 16, then
    the longest run of digits; [None] is [NaN]. *)
Definition is_space (c : ascii) : bool :=
  let n := Z.of_N (N_of_ascii c) in
  ((9 <=? n) && (n <=? 13)) || (n =? 32).

Fixpoint skip_spaces (s : string) : string :=
  match s with
  | String c s' => if is_space c then skip_spaces s' else s
  | EmptyString => s
  end.

Definition digit_of (c : ascii) : option Z :=
  let n := Z.of_N (N_of_ascii c) in
  if (48 <=? n) && (n <=? 57) then Some (n - 48)
  else if (97 <=? n) && (n <=? 122) then Some (n - 87)
  else if (65 <=? n) && (n <=? 90) then Some (n - 55)
  else None.

Fixpoint digits (radix : Z) (s : string) (acc : option Z) : option Z :=
  match s with
  | EmptyString => acc
  | String c s' =>
      match digit_of c with
      | Some d =>
          if d <? radix then digits radix s' (Some (radix * default 0 acc + d))
          else acc
      | None => acc
      end
  end.

Definition parseInt (s : string) : option Z :=
  let s := skip_spaces s in
  let '(neg, s) :=
    match s with
    | String "-" s' => (true, s')
    | String "+" s' => (false, s')
    | _ => (false, s)
    end in
  let '(radix, s) :=
    match s with
    | String "0" (String "x" s') => (16, s')
    | String "0" (String "X" s') => (16, s')
    | _ => (10, s)
    end in
  (fun n => if neg : bool then - n else n) <$> digits radix s None.

(** [parseInt(x)] where [x] may be [undefined]: the text "undefined" has
    no digits. *)
Definition parseInt_opt (x : option string) : option Z :=
  match x with Some s => parseInt s | None => None end.

(** [s.split(sep)] for a one-character separator. *)
Fixpoint split_on (sep : ascii) (s : string) : list string :=
  match s with
  | EmptyString => [EmptyString]
  | String c s' =>
      if Ascii.eqb c sep then EmptyString :: split_on sep s'
      else match split_on sep s' with
           | w :: ws => String c w :: ws
           | [] => [String c EmptyString]
           end
  end.

(** [a === n] and the relational operators when [a] may be [undefined] or
    [NaN] and [n] is a number: every comparison with such an [a] is false. *)
Definition js_eq (a : option Z) (n : Z) : bool :=
  match a with Some x => x =? n | None => false end.

Definition js_gt (a b : option Z) : bool :=
  match a, b with Some x, Some y => y <? x | _, _ => false end.

Definition js_lt (a b : option Z) : bool :=
  match a, b with Some x, Some y => x <? y | _, _ => false end.

(** [n.id] for a number [n]: a number has no such property. *)
Definition number_id (n : Z) : option Z := None.

(** The double nearest to an integer, ties going to the even mantissa:
    what a number holds after an addition whose exact result is [z].
    Every integer below [2^53] in absolute value is a double. This covers
    the integers below [2^1024]; beyond them a double is infinite. *)
Definition round_double (z : Z) : Z :=
  let a := Z.abs z in
  if a <? 2 ^ 53 then z
  else
    let e := Z.log2 a - 52 in
    let q := a / 2 ^ e in
    let r := a mod 2 ^ e in
    let up := (2 ^ (e - 1) <? r) || ((r =? 2 ^ (e - 1)) && Z.odd q) in
    Z.sgn z * ((if up then q + 1 else q) * 2 ^ e).

(** [++n] on a number [n]. *)
Definition js_inc (n : Z) : Z := round_double (n + 1).

(** [arr[i] = null] in an array whose [null] slots are read like holes. *)
Definition array_clear {A} (i : nat) (arr : list (option A)) : list (option A) :=
  if (i <? length arr)%nat then <[i := None]> arr
  else arr ++ replicate (S (i - length arr)) None.

(** [arr.length = n]: the array is cut, or grown by holes. *)
Definition array_resize {A} (n : nat) (arr : list (option A))
  : list (option A) :=
  take n arr ++ replicate (n - length arr) None.

(** ** The row container ([effset.js]) *)

Module EffSet.

(** One stored entry: a slot for each position of the field directory. *)
Abbreviation entry := (list (option value)).

(** [this.fields] and [this.entries]; an entry slot that is a hole reads
    as [undefined]. *)
Record t : Type := mk {
  fields : list string;
  entries : list (option entry)
}.

(** [constructor ()] *)
Definition new : t := {| fields := []; entries := [] |}.

(** The registration step shared by [push] and [set]:
    [if (!(key in this.fields)) this.fields.push(key)]. *)
Definition register (key : string) (fs : list string) : list string :=
  if negb (key_in_array key (length fs)) then fs ++ [key] else fs.

(** [entry[this.fields.indexOf(key)] = v]; with [indexOf] at [-1] the
    assignment makes a property named "-1" and no element. *)
Definition store (key : string) (v : value) (fs : list string) (e : entry)
  : entry :=
  match indexOf key fs with
  | Some i => array_set i v e
  | None => e
  end.

(** One turn of the loop of [push]. *)
Definition push_key (st : list string * entry) (kv : string * value)
  : list string * entry :=
  let fs := register kv.1 st.1 in
  (fs, store kv.1 kv.2 fs st.2).

(** [push (elem)] *)
Definition push (elem : object) (s : t) : t :=
  let st := foldl push_key (fields s, new_Array (length (fields s))) elem in
  {| fields := st.1; entries := entries s ++ [Some st.2] |}.

(** [entry[i]] as a value. *)
Definition slot (i : nat) (e : entry) : value :=
  match array_get i e with Some v => v | None => VUndef end.

(** The loop of [get]: [obj[this.fields[i]] = entry[i]] for [i] from the
    given position on. *)
Fixpoint rebuild (fs : list string) (i : nat) (e : entry) (obj : object)
  : object :=
  match fs with
  | [] => obj
  | f :: fs' => rebuild fs' (S i) e (obj_set f (slot i e) obj)
  end.

(** [get (index)]; [None] is [undefined]. *)
Definition get (index : nat) (s : t) : option object :=
  match array_get index (entries s) with
  | None => None
  | Some e => Some (rebuild (fields s) 0 e [])
  end.

(** [getAll ()] *)
Definition getAll (s : t) : list (option object) :=
  map (fun i => get i s) (seq 0 (length (entries s))).

(** One turn of the loop of [set]: the entry is made anew in every turn. *)
Definition set_key (index : nat) (s : t) (kv : string * value) : t :=
  let fs := register kv.1 (fields s) in
  {| fields := fs;
     entries := array_set index (store kv.1 kv.2 fs []) (entries s) |}.

(** [set (index, elem)] *)
Definition set (index : nat) (elem : object) (s : t) : t :=
  foldl (set_key index) s elem.

(** [get length ()] and [set length (value)] *)
Definition get_length (s : t) : nat := length (entries s).

Definition set_length (value : nat) (s : t) : t :=
  {| fields := fields s; entries := array_resize value (entries s) |}.

(** [remove (index)]: the slot becomes [null], which [get] reads like a
    hole; the array is not made shorter. *)
Definition remove (index : nat) (s : t) : t :=
  {| fields := fields s; entries := array_clear index (entries s) |}.

(** [findIndex (func)] and [find (func)]: the loops over the [n] indices
    from [i] on. [func] is given what [get] gives, [undefined] included;
    [None] is [undefined], also as the result. *)
Fixpoint findIndex_from (func : option object -> bool) (s : t) (n i : nat)
  : option nat :=
  match n with
  | O => None
  | S n' => if func (get i s) then Some i else findIndex_from func s n' (S i)
  end.

Definition findIndex (func : option object -> bool) (s : t) : option nat :=
  findIndex_from func s (length (entries s)) 0.

Fixpoint find_from (func : option object -> bool) (s : t) (n i : nat)
  : option object :=
  match n with
  | O => None
  | S n' =>
      let item := get i s in
      if func item then item else find_from func s n' (S i)
  end.

Definition find (func : option object -> bool) (s : t) : option object :=
  find_from func s (length (entries s)) 0.

End EffSet.

(** ** The database ([db.js]) *)

(** A record of a table: an object whose reserved property [id] is absent
    ([None], read as [undefined]) or an integer. *)
Record Row : Type := mkRow {
  row_id : option Z;
  row_fields : object
}.

(** What [createTable] allocates for a table. The property [truncate] is
    [truncateAt] here, as the method of that name follows below. *)
Record Table : Type := mkTable {
  lastId : Z;
  beforeLastId : option Z;
  items : list Row;
  inserts : list Row;
  updates : list Row;
  removals : list Z;
  truncateAt : Z;
  cache : list Row
}.

(** The two files of a table directory. [index] is the text of the index
    file by lines, [None] when the file is absent. *)
Record Files : Type := mkFiles {
  index : option (list string);
  db_present : bool
}.

(** The database directory: the stamp file and [<dir>/tables], [None]
    when that directory is absent. *)
Record Disk : Type := mkDisk {
  stamp : bool;
  tabledirs : option (gmap string Files)
}.

(** What [msgpack.unpack] makes of a buffer: a record, a value without
    properties of its own (a number, a string, a boolean), or [undefined]
    or [null]. *)
Inductive Unpacked : Type :=
| URow (r : Row)
| UPrimitive
| UNullish.

(** The database object: [this.storage] ([tables], [writes], [lastWrite],
    [worthPersistingNow], [leastfree]), the timer armed by
    [asyncPersistData] ([lastPersistDataTimeout], as its delay in
    milliseconds), the number of calls of [persistData] so far, the
    directory, and what the scan buffer of [get] decodes to at the k-th
    record of a scan (the scan never reads the table file into it). *)
Record DB : Type := mkDB {
  tables : gmap string Table;
  writes : Z;
  lastWrite : option Z;
  worthPersistingNow : bool;
  leastfree : Z;
  lastPersistDataTimeout : option Z;
  persistCalls : nat;
  disk : Disk;
  scanBuffer : nat -> Unpacked
}.

Inductive Error : Type :=
| InvalidId      (* Error('id must exist and be at least 1') *)
| LowMemory      (* Error('Less than ... MiB system memory available ...') *)
| TypeError      (* a property of undefined was read *)
| ENOENT.        (* a file or directory to open is absent *)

Inductive Outcome (A : Type) : Type :=
| Returned (a : A)
| Thrown (e : Error).
Arguments Returned {A} a.
Arguments Thrown {A} e.

(** What [get] can return. *)
Inductive Found : Type :=
| Undefined
| Null
| Item (r : Row).

(** A method: from the object before the call to the outcome and the
    object after it. What a call changed before it threw stays changed. *)
Definition M (A : Type) : Type := DB -> Outcome A * DB.

Definition ret {A} (a : A) : M A := fun db => (Returned a, db).
Definition throw {A} (e : Error) : M A := fun db => (Thrown e, db).
Definition bind {A B} (m : M A) (k : A -> M B) : M B :=
  fun db =>
    match m db with
    | (Returned a, db') => k a db'
    | (Thrown e, db') => (Thrown e, db')
    end.
Definition this : M DB := fun db => (Returned db, db).
Definition modify (f : DB -> DB) : M unit :=
  fun db => (Returned tt, f db).

Notation "x <- m ;; k" := (bind m (fun x => k))
  (at level 100, m at next level, right associativity).
Notation "m ;; k" := (bind m (fun _ => k))
  (at level 100, right associativity).

(** Field updates of the database object and of a table. *)
Definition with_tables (f : gmap string Table -> gmap string Table)
  (db : DB) : DB :=
  mkDB (f (tables db)) (writes db) (lastWrite db)
    (worthPersistingNow db) (leastfree db) (lastPersistDataTimeout db)
    (persistCalls db) (disk db) (scanBuffer db).

Definition with_writes (w : Z) (db : DB) : DB :=
  mkDB (tables db) w (lastWrite db) (worthPersistingNow db)
    (leastfree db) (lastPersistDataTimeout db) (persistCalls db) (disk db)
    (scanBuffer db).

Definition with_lastWrite (t : Z) (db : DB) : DB :=
  mkDB (tables db) (writes db) (Some t) (worthPersistingNow db)
    (leastfree db) (lastPersistDataTimeout db) (persistCalls db) (disk db)
    (scanBuffer db).

Definition with_worthPersistingNow (b : bool) (db : DB) : DB :=
  mkDB (tables db) (writes db) (lastWrite db) b (leastfree db)
    (lastPersistDataTimeout db) (persistCalls db) (disk db) (scanBuffer db).

Definition with_timeout (t : option Z) (db : DB) : DB :=
  mkDB (tables db) (writes db) (lastWrite db) (worthPersistingNow db)
    (leastfree db) t (persistCalls db) (disk db) (scanBuffer db).

Definition with_persistCalls (n : nat) (db : DB) : DB :=
  mkDB (tables db) (writes db) (lastWrite db) (worthPersistingNow db)
    (leastfree db) (lastPersistDataTimeout db) n (disk db) (scanBuffer db).

Definition set_lastId (n : Z) (t : Table) : Table :=
  mkTable n (beforeLastId t) (items t) (inserts t) (updates t) (removals t)
    (truncateAt t) (cache t).

Definition set_beforeLastId (n : Z) (t : Table) : Table :=
  mkTable (lastId t) (Some n) (items t) (inserts t) (updates t) (removals t)
    (truncateAt t) (cache t).

Definition set_inserts (l : list Row) (t : Table) : Table :=
  mkTable (lastId t) (beforeLastId t) (items t) l (updates t) (removals t)
    (truncateAt t) (cache t).

Definition set_updates (l : list Row) (t : Table) : Table :=
  mkTable (lastId t) (beforeLastId t) (items t) (inserts t) l (removals t)
    (truncateAt t) (cache t).

Definition set_removals (l : list Z) (t : Table) : Table :=
  mkTable (lastId t) (beforeLastId t) (items t) (inserts t) (updates t) l
    (truncateAt t) (cache t).

Definition set_truncateAt (n : Z) (t : Table) : Table :=
  mkTable (lastId t) (beforeLastId t) (items t) (inserts t) (updates t)
    (removals t) n (cache t).

(** [data.id = n] *)
Definition set_row_id (n : Z) (r : Row) : Row := mkRow (Some n) (row_fields r).

Module Database.

(** [this.storage.tables[table]] where a property of it is read next:
    a [TypeError] when there is no such table. *)
Definition the_table (table : string) : M Table :=
  db <- this ;;
  match tables db !! table with
  | Some t => ret t
  | None => throw TypeError
  end.

(** An assignment to a property of [this.storage.tables[table]]. *)
Definition set_table (table : string) (f : Table -> Table) : M unit :=
  modify (with_tables (alter f table)).

(** [createTable (table)] *)
Definition createTable (table : string) : M unit :=
  modify (with_tables <[table := mkTable 0 None [] [] [] [] (-1) []]>).

(** [lastWrite + delay <= dateNow]; with [lastWrite] still [undefined] the
    sum is [NaN] and the comparison false. *)
Definition passed (lastWrite : option Z) (delay dateNow : Z) : bool :=
  match lastWrite with
  | Some t => t + delay <=? dateNow
  | None => false
  end.

Definition normalRunDue (writes : Z) (lastWrite : option Z) (dateNow : Z)
  : bool :=
  (100 <=? writes) && passed lastWrite (1000 * 60 * writes / 100) dateNow.

Definition longRunDue (writes : Z) (lastWrite : option Z) (dateNow : Z)
  : bool :=
  (1000 <=? writes) && passed lastWrite 1000 dateNow.

Definition shortRunDue (writes : Z) (lastWrite : option Z) (dateNow : Z)
  : bool :=
  (writes <? 100) && passed lastWrite (1000 * 60 * 2) dateNow.

(** [asyncPersistData ()], [dateNow] being what [Date.now()] gives it.
    Either [persistData] is called and the flag is cleared, or the armed
    timer is replaced by a new one. The work of [persistData] happens
    inside its promise; here the call is counted. *)
Definition asyncPersistData (dateNow : Z) : M unit :=
  db <- this ;;
  if normalRunDue (writes db) (lastWrite db) dateNow
     || longRunDue (writes db) (lastWrite db) dateNow
     || shortRunDue (writes db) (lastWrite db) dateNow
     || worthPersistingNow db
  then
    modify (with_persistCalls (S (persistCalls db))) ;;
    modify (with_worthPersistingNow false)
  else
    modify (with_timeout (Some ((if 1000 <? writes db then 1 else 60) * 1000))).

(** [this.storage.lastWrite = Date.now(); this.storage.writes++;
    this.asyncPersistData()], the tail of every mutation; [now] and
    [dateNow] are the two readings of the clock. *)
Definition wrote (now dateNow : Z) : M unit :=
  modify (with_lastWrite now) ;;
  db <- this ;;
  modify (with_writes (writes db + 1)) ;;
  asyncPersistData dateNow.

(** Names that the object [this.storage.tables] inherits from
    [Object.prototype]. What they hold is a function or an object: true
    in a test, and no table. *)
Definition object_proto : list string :=
  [ "constructor"; "toString"; "toLocaleString"; "valueOf"; "hasOwnProperty";
    "isPrototypeOf"; "propertyIsEnumerable"; "__proto__"; "__defineGetter__";
    "__defineSetter__"; "__lookupGetter__"; "__lookupSetter__" ].

(** [this.storage.tables[table]] is true although [table] is no table:
    the name is inherited. An assignment to the property [__proto__],
    as [createTable] makes it, sets the prototype of the object: the key
    ["__proto__"] of the map stands for that prototype, and its
    properties are inherited names as well, those that hold an array or
    a number other than 0. *)
Definition inherits (tabs : gmap string Table) (table : string) : bool :=
  existsb (String.eqb table) object_proto
  || match tabs !! "__proto__" with
     | Some p =>
         existsb (String.eqb table)
           ["items"; "inserts"; "updates"; "removals"; "cache"]
         || (String.eqb table "lastId" && negb (lastId p =? 0))
         || (String.eqb table "truncate" && negb (truncateAt p =? 0))
         || (String.eqb table "beforeLastId"
             && match beforeLastId p with
                | Some n => negb (n =? 0)
                | None => false
                end)
     | None => false
     end.

(** [insert (table, data)]; [freemem] is what [os.freemem()] gives. With
    an inherited name the test [!this.storage.tables[table]] fails, no
    table is created, and the method throws a [TypeError] before it
    reaches [this.storage]: at the latest at [tbl.inserts.push]. The id
    is [++tbl.lastId], an addition of doubles. The record is a value
    here; the source keeps the caller's object. *)
Definition insert (freemem now dateNow : Z) (table : string) (data : Row)
  : M Z :=
  db <- this ;;
  if ((writes db + 1) mod 250000 =? 0) && (freemem <? leastfree db)
  then modify (with_timeout None) ;; throw LowMemory
  else
    match tables db !! table with
    | Some _ => ret tt
    | None =>
        if inherits (tables db) table then throw TypeError
        else createTable table
    end ;;
    tbl <- the_table table ;;
    set_table table (set_beforeLastId (lastId tbl)) ;;
    set_table table (set_lastId (js_inc (lastId tbl))) ;;
    set_table table
      (set_inserts (inserts tbl ++ [set_row_id (js_inc (lastId tbl)) data])) ;;
    wrote now dateNow ;;
    tbl' <- the_table table ;;
    ret (lastId tbl').

(** The scan of the index file in [get]. Each turn reads the next line;
    at the end of the file [liner.next()] is [false], whose text has no
    digits. A length of [0] or [NaN] ends the loop. The item decoded in a
    turn comes from the scan buffer. *)
Fixpoint scan (buffer : nat -> Unpacked) (lines : list string) (id : Z)
  (k : nat) (item : Found) : Outcome Found :=
  match lines with
  | [] => Returned item
  | next :: lines' =>
      match parseInt next with
      | None => Returned item
      | Some length =>
          if length =? 0 then Returned item
          else match buffer k with
               | UNullish => Thrown TypeError
               | UPrimitive => scan buffer lines' id (S k) Null
               | URow r =>
                   if js_eq (row_id r) id then Returned (Item r)
                   else scan buffer lines' id (S k) Null
               end
      end
  end.

(** The files of a table, as [get] opens them: the index file first,
    whose first line is skipped, then the table file. *)
Definition files_of (d : Disk) (table : string) : option Files :=
  match tabledirs d with
  | Some dirs => dirs !! table
  | None => None
  end.

Definition scan_files (db : DB) (table : string) (id : Z) : Outcome Found :=
  match files_of (disk db) table with
  | None => Thrown ENOENT
  | Some f =>
      match index f with
      | None => Thrown ENOENT
      | Some lines =>
          if db_present f then scan (scanBuffer db) (tail lines) id 0 Undefined
          else Thrown ENOENT
      end
  end.

(** [arr.find(item => item.id === id)] over records. *)
Definition find_row (id : Z) (arr : list Row) : option Row :=
  array_find (fun item => js_eq (row_id item) id) arr.

(** [if (removals.find(item => item.id === id))]: the element found, if
    any, is tested for truth, and a number is true unless it is [0]. The
    elements are the ids that [remove] pushed, so [item.id] is the
    property [id] of a number. *)
Definition tombstone (id : Z) (removals : list Z) : bool :=
  match array_find (fun item => js_eq (number_id item) id) removals with
  | Some found => negb (found =? 0)
  | None => false
  end.

(** [get (table, id)]. The statement [return item] stands inside the block
    of the second [if (!item)]: when [updates] or [inserts] hold the id,
    that block is skipped and the method ends without a [return]. *)
Definition get (table : string) (id : option Z) : M Found :=
  match id with
  | None => throw InvalidId
  | Some id =>
      if id =? 0 then throw InvalidId
      else
        tbl <- the_table table ;;
        let item := find_row id (updates tbl) in
        let item :=
          if item is Some _ then item else find_row id (inserts tbl) in
        match item with
        | Some _ => ret Undefined
        | None =>
            if tombstone id (removals tbl) then ret Null
            else
              match find_row id (cache tbl) with
              | Some r => ret (Item r)
              | None => fun db => (scan_files db table id, db)
              end
        end
  end.

(** [update (table, data)] *)
Definition update (now dateNow : Z) (table : string) (data : Row) : M Found :=
  match row_id data with
  | None => throw InvalidId
  | Some id =>
      if id =? 0 then throw InvalidId
      else
        tbl <- the_table table ;;
        let insertIndex :=
          array_findIndex (fun item => js_eq (row_id item) id) (inserts tbl) in
        (if insertIndex =? -1
         then set_table table (set_updates (updates tbl ++ [data]))
         else set_table table
                (set_inserts (<[Z.to_nat insertIndex := data]> (inserts tbl)))) ;;
        wrote now dateNow ;;
        get table (row_id data)
  end.

(** [remove (table, id)] *)
Definition remove (now dateNow : Z) (table : string) (id : option Z) : M bool :=
  match id with
  | None => throw InvalidId
  | Some id =>
      if id =? 0 then throw InvalidId
      else
        tbl <- the_table table ;;
        let insertIndex :=
          array_findIndex (fun item => js_eq (row_id item) id) (inserts tbl) in
        (if insertIndex =? -1
         then set_table table (set_removals (removals tbl ++ [id]))
         else set_table table
                (set_inserts (splice1 (Z.to_nat insertIndex) (inserts tbl)))) ;;
        wrote now dateNow ;;
        ret true
  end.

(** [truncate (table, start = 0)]: a missing [start] takes the default. *)
Definition truncate (now dateNow : Z) (table : string) (start : option Z)
  : M Z :=
  let start := default 0 start in
  tbl <- the_table table ;;
  let index :=
    array_findIndex (fun item => js_gt (row_id item) (Some start)) (items tbl) in
  modify (with_lastWrite now) ;;
  db <- this ;;
  modify (with_writes (writes db + 1)) ;;
  set_table table (set_lastId start) ;;
  modify (with_worthPersistingNow true) ;;
  set_table table (set_truncateAt start) ;;
  asyncPersistData dateNow ;;
  ret index.

(** *** The removals in [persistData] *)

(** The function given to [table.removals.sort]; [a] and [b] are elements
    of [removals], the ids that [remove] pushed. *)
Definition removal_cmp (a b : Z) : Z :=
  if js_gt (number_id a) (number_id b) then 1
  else if js_lt (number_id a) (number_id b) then -1
  else 0.

(** [split = [parseInt(split[0]), parseInt(split[1])]] of a line. *)
Definition parse_line (next : string) : option Z * option Z :=
  let split := split_on "," next in
  (parseInt_opt (split !! 0%nat), parseInt_opt (split !! 1%nat)).

(** [!(split[1] === removal && removal <= table.lastId)]: the line is
    appended to the new index file. *)
Definition copied (tbl : Table) (removal : Z) (next : string) : bool :=
  negb (js_eq (parse_line next).2 removal && (removal <=? lastId tbl)).

(** One pass over the lines of the index file: the lines appended to the
    new index file, in order. *)
Definition removal_pass (tbl : Table) (removal : Z) (lines : list string)
  : list string :=
  List.filter (copied tbl removal) lines.

(** The passes in the order [persistData] makes them, each with what it
    writes; every pass reads the index file of the table. *)
Definition persist_removals (tbl : Table) (lines : list string)
  : list (Z * list string) :=
  map (fun removal => (removal, removal_pass tbl removal lines))
    (array_sort removal_cmp (removals tbl)).

(** *** Startup *)

(** The body of the loop of [initialize] for one table directory:
    [new readlines] opens the index file, [liner.next()] is [false] when
    the file has no line, and then [lastId] stays [0]. The number may be
    [NaN] ([None]). The loop [while (liner.next());] that follows has no
    [await] in it: it reads on to the end of the file before the table
    gets its [lastId], keeps nothing of what it reads and changes
    nothing in the database object. *)
Definition recover_lastId (f : Files) : Outcome (option Z) :=
  match index f with
  | None => Thrown ENOENT
  | Some [] => Returned (Some 0)
  | Some (next :: _) => Returned (parseInt next)
  end.

Fixpoint recover_tables (dirs : list (string * Files))
  : Outcome (list (string * option Z)) :=
  match dirs with
  | [] => Returned []
  | (tableName, f) :: dirs' =>
      match recover_lastId f with
      | Thrown e => Thrown e
      | Returned n =>
          match recover_tables dirs' with
          | Thrown e => Thrown e
          | Returned l => Returned ((tableName, n) :: l)
          end
      end
  end.

(** [initialize ()] from the stamp test on: the tables created and the
    [lastId] each one gets, or what the constructor throws. *)
Definition initialize (d : Disk) : Outcome (list (string * option Z)) :=
  if stamp d then
    match tabledirs d with
    | None => Thrown ENOENT
    | Some dirs => recover_tables (map_to_list dirs)
    end
  else Returned [].

(** *** [getAll] *)

(** The loop of [getAll]: every item decoded is pushed, and the loop ends
    after an item whose id is [until]. *)
Fixpoint scan_all (buffer : nat -> Unpacked) (lines : list string) (until : Z)
  (k : nat) (found : list Unpacked) : Outcome (list Unpacked) :=
  match lines with
  | [] => Returned found
  | next :: lines' =>
      match parseInt next with
      | None => Returned found
      | Some length =>
          if length =? 0 then Returned found
          else match buffer k with
               | UNullish => Thrown TypeError
               | UPrimitive =>
                   scan_all buffer lines' until (S k) (found ++ [UPrimitive])%list
               | URow r =>
                   if js_eq (row_id r) until then Returned (found ++ [URow r])%list
                   else scan_all buffer lines' until (S k) (found ++ [URow r])%list
               end
      end
  end.

(** [getAll (table, until = 0)]: the files are read, the tables in memory
    are not. *)
Definition getAll (table : string) (until : option Z) : M (list Unpacked) :=
  fun db =>
    (match files_of (disk db) table with
     | None => Thrown ENOENT
     | Some f =>
         match index f with
         | None => Thrown ENOENT
         | Some lines =>
             if db_present f
             then scan_all (scanBuffer db) (tail lines) (default 0 until) 0 []
             else Thrown ENOENT
         end
     end, db).

(** *** The memory floor of [initialize] *)

(** [leastfree] from [Math.floor(os.totalmem() * 0.06)], and
    [leastfreemib]; the divisions by 1024 are exact in floating point, so
    the floor of the quotient is the integer quotient. *)
Definition leastfree_of (six_percent : Z) : Z :=
  Z.min (1024 * 1024 * 1024) (Z.max (64 * 1024 * 1024) six_percent).

Definition leastfreemib_of (leastfree : Z) : Z := leastfree / 1024 / 1024.

End Database.

(** ** Sequences of calls *)

(** A call of a method of the database object from outside: the six
    that the query layer uses, and [createTable]; with what the clock and
    the memory probe answer during the call. *)
Inductive Call : Type :=
| CallInsert (freemem now dateNow : Z) (table : string) (data : Row)
| CallUpdate (now dateNow : Z) (table : string) (data : Row)
| CallRemove (now dateNow : Z) (table : string) (id : option Z)
| CallTruncate (now dateNow : Z) (table : string) (start : option Z)
| CallGet (table : string) (id : option Z)
| CallCreateTable (table : string)
| CallGetAll (table : string) (until : option Z).

Inductive Result : Type :=
| RNumber (n : Z)
| RFound (f : Found)
| RBool (b : bool)
| RUndefined
| RItems (items : list Unpacked).

Definition lift {A} (f : A -> Result) (m : M A) : M Result :=
  a <- m ;; ret (f a).

Definition call (c : Call) : M Result :=
  match c with
  | CallInsert freemem now dateNow table data =>
      lift RNumber (Database.insert freemem now dateNow table data)
  | CallUpdate now dateNow table data =>
      lift RFound (Database.update now dateNow table data)
  | CallRemove now dateNow table id =>
      lift RBool (Database.remove now dateNow table id)
  | CallTruncate now dateNow table start =>
      lift RNumber (Database.truncate now dateNow table start)
  | CallGet table id => lift RFound (Database.get table id)
  | CallCreateTable table =>
      lift (fun _ => RUndefined) (Database.createTable table)
  | CallGetAll table until => lift RItems (Database.getAll table until)
  end.

(** The calls one after the other, a call that throws leaving the object
    as it was when it threw. *)
Fixpoint run (cs : list Call) (db : DB) : DB :=
  match cs with
  | [] => db
  | c :: cs' => run cs' (call c db).2
  end.






(** [lastId] of a table, a table not yet created counting as [0], the
    value [createTable] gives it. *)
Definition lastId_of (table : string) (db : DB) : Z :=
  from_option lastId 0 (tables db !! table).

(** ** Inputs for the examples *)

(** A database object as the constructor leaves it in an empty directory:
    no stamp, no tables, a floor of 64 MiB. *)
Definition fresh : DB :=
  mkDB ∅ 0 None false (64 * 1024 * 1024) None 0 (mkDisk false None)
    (fun _ => UPrimitive).

Definition plenty : Z := 1024 * 1024 * 1024.

Definition customer (name : string) : Row :=
  mkRow None [("name", VStr name)].

(** One customer inserted into a fresh database. *)
Definition one_customer : DB :=
  (Database.insert plenty 5 5 "customers" (customer "A") fresh).2.

(** Three customers inserted into a fresh database within a millisecond. *)
Definition three_inserts : list Call :=
  [ CallInsert plenty 5 5 "customers" (customer "A");
    CallInsert plenty 5 5 "customers" (customer "B");
    CallInsert plenty 5 5 "customers" (customer "C") ].

Definition three_customers : DB := run three_inserts fresh.

(** The records of a table's write buffers with an id above [start], as
    the specification counts them for [truncate]. *)
Definition buffered_above (start : Z) (tbl : Table) : Z :=
  Z.of_nat (length (List.filter (fun item => js_gt (row_id item) (Some start))
                      (inserts tbl ++ updates tbl))).

Import Database.

(** ** Vocabulary of the statements *)



(** The table that [createTable] makes. *)
Definition emptyTable : Table := mkTable 0 None [] [] [] [] (-1) [].

(** The test of [insert] that makes it throw: every 250000th write, with
    free memory under the floor. *)
Definition low_memory (freemem : Z) (db : DB) : bool :=
  ((writes db + 1) mod 250000 =? 0) && (freemem <? leastfree db).

(** The table that [insert] leaves: one more id, one more pending insert. *)
Definition inserted (data : Row) (tbl : Table) : Table :=
  mkTable (js_inc (lastId tbl)) (Some (lastId tbl)) (items tbl)
    (inserts tbl ++ [set_row_id (js_inc (lastId tbl)) data]) (updates tbl)
    (removals tbl) (truncateAt tbl) (cache tbl).

(** The table that [update] leaves. *)
Definition updated (id : Z) (data : Row) (tbl : Table) : Table :=
  let insertIndex :=
    array_findIndex (fun item => js_eq (row_id item) id) (inserts tbl) in
  if insertIndex =? -1 then set_updates (updates tbl ++ [data]) tbl
  else set_inserts (<[Z.to_nat insertIndex := data]> (inserts tbl)) tbl.

(** The table that [remove] leaves. *)
Definition removed (id : Z) (tbl : Table) : Table :=
  let insertIndex :=
    array_findIndex (fun item => js_eq (row_id item) id) (inserts tbl) in
  if insertIndex =? -1 then set_removals (removals tbl ++ [id]) tbl
  else set_inserts (splice1 (Z.to_nat insertIndex) (inserts tbl)) tbl.

(** The table that [truncate] leaves. *)
Definition truncated (start : Z) (tbl : Table) : Table :=
  set_truncateAt start (set_lastId start tbl).

(** The table with its pending removals forgotten. *)
Definition without_removals (table : string) (db : DB) : DB :=
  with_tables (alter (set_removals []) table) db.

(** The table a call works on, and what it makes of that table when it
    returns. *)
Definition table_of (c : Call) : string :=
  match c with
  | CallInsert _ _ _ table _ | CallUpdate _ _ table _ | CallRemove _ _ table _
  | CallTruncate _ _ table _ | CallGet table _ | CallCreateTable table
  | CallGetAll table _ => table
  end.

(** [getAll] looks at the files only: it needs no table in memory. *)
Definition files_only (c : Call) : bool :=
  match c with
  | CallGetAll _ _ => true
  | _ => false
  end.

Definition table_effect (c : Call) (tbl : Table) : Table :=
  match c with
  | CallInsert _ _ _ _ data => inserted data tbl
  | CallUpdate _ _ _ data =>
      if row_id data is Some id then updated id data tbl else tbl
  | CallRemove _ _ _ id => if id is Some n then removed n tbl else tbl
  | CallTruncate _ _ _ start => truncated (default 0 start) tbl
  | CallGet _ _ | CallGetAll _ _ => tbl
  | CallCreateTable _ => emptyTable
  end.

(** The database after one customer was inserted and the id 2, which no
    record has, was removed. *)
Definition after_remove : DB :=
  (remove 6 6 "customers" (Some 2) one_customer).2.

(** The table of the three customers. *)
Definition customers_table : Table :=
  default emptyTable (tables three_customers !! "customers").

(** A table directory with three records on file, and the database object
    after startup on it: [lastId] is 3 and the buffers are empty. *)
Definition index_of_three : list string := ["3"; "12,1"; "12,2"; "12,3"].

Definition reopened : DB :=
  mkDB {[ "customers" := set_lastId 3 emptyTable ]} 0 None false
    (64 * 1024 * 1024) None 0
    (mkDisk true (Some {[ "customers" := mkFiles (Some index_of_three) true ]}))
    (fun _ => UPrimitive).

(** The records 3 and 1 removed, in this order. *)
Definition two_removals : DB :=
  run [ CallRemove 6 6 "customers" (Some 3);
        CallRemove 7 7 "customers" (Some 1) ] reopened.

Definition removals_table : Table :=
  default emptyTable (tables two_removals !! "customers").

(** A database directory with the stamp and one table directory whose
    index file is empty. *)
Definition empty_index : Disk :=
  mkDisk true (Some {[ "customers" := mkFiles (Some []) true ]}).

(** Row containers: two records with the one field [a] pushed; a record
    with the field [a] and one with the field [b] pushed; a record with
    the fields [a] and [b] set at index 0 of an empty container; and a
    record set at index 1 after one was pushed. *)
Definition pushed_twice : EffSet.t :=
  EffSet.push [("a", VNum 2)] (EffSet.push [("a", VNum 1)] EffSet.new).

Definition pushed_a_then_b : EffSet.t :=
  EffSet.push [("b", VNum 2)] (EffSet.push [("a", VNum 1)] EffSet.new).

Definition set_a_and_b : EffSet.t :=
  EffSet.set 0 [("a", VNum 1); ("b", VNum 2)] EffSet.new.

Definition pushed_then_set : EffSet.t :=
  EffSet.set 1 [("a", VNum 2)] (EffSet.push [("a", VNum 1)] EffSet.new).

(** The database object after the tail of a mutation whose table is left
    as [tbl']. *)
Definition written (now dateNow : Z) (table : string) (tbl' : Table) (db : DB)
  : DB :=
  (asyncPersistData dateNow
     (with_writes (writes db + 1)
        (with_lastWrite now (with_tables <[table := tbl']> db)))).2.


(** The state of the scheduler after a mutation for which nothing is due:
    the count, the time, and the timer armed anew. *)
Definition quiet (now : Z) (db db' : DB) : Prop :=
  persistCalls db' = persistCalls db
  /\ writes db' = writes db + 1
  /\ lastWrite db' = Some now
  /\ lastPersistDataTimeout db'
     = Some ((if 1000 <? writes db + 1 then 1 else 60) * 1000).



(** * Properties *)

Ltac unfold_M :=
  unfold wrote, asyncPersistData, set_table, createTable, the_table, lift,
    bind, this, modify, ret, throw in *.

(** ** The flush scheduler *)

Lemma passed_iff (t delay dateNow : Z) :
  passed (Some t) delay dateNow = true <-> delay <= dateNow - t.
Proof. unfold passed. rewrite Z.leb_le. lia. Qed.

Lemma normalRunDue_iff (w t dateNow : Z) :
  normalRunDue w (Some t) dateNow = true <-> 100 <= w /\ 600 * w <= dateNow - t.
Proof.
  unfold normalRunDue.
  replace (1000 * 60 * w / 100) with (600 * w)
    by (apply Z.div_unique_exact; lia).
  rewrite andb_true_iff, passed_iff, Z.leb_le. tauto.
Qed.

Lemma longRunDue_iff (w t dateNow : Z) :
  longRunDue w (Some t) dateNow = true <-> 1000 <= w /\ 1000 <= dateNow - t.
Proof. unfold longRunDue. rewrite andb_true_iff, passed_iff, Z.leb_le. tauto. Qed.

Lemma shortRunDue_iff (w t dateNow : Z) :
  shortRunDue w (Some t) dateNow = true <-> w < 100 /\ 120000 <= dateNow - t.
Proof.
  unfold shortRunDue. rewrite andb_true_iff, passed_iff, Z.ltb_lt.
  change (1000 * 60 * 2) with 120000. tauto.
Qed.


(** ** What a mutation leaves in the tables *)

Lemma alter_Some {A} (f : A -> A) (m : gmap string A) (i : string) (x : A) :
  m !! i = Some x -> alter f i m = <[i := f x]> m.
Proof.
  intros Hx. apply map_eq. intros j. rewrite lookup_alter, lookup_insert.
  case_decide; subst; [rewrite Hx|]; reflexivity.
Qed.

(** The scheduler and the tail of a mutation return and keep the tables. *)
Lemma asyncPersistData_returns (dateNow : Z) (db : DB) :
  exists db', asyncPersistData dateNow db = (Returned tt, db')
              /\ tables db' = tables db /\ writes db' = writes db
              /\ disk db' = disk db /\ scanBuffer db' = scanBuffer db.
Proof.
  unfold_M.
  destruct (_ || _ || _ || worthPersistingNow db); simpl; eauto 10.
Qed.

Lemma wrote_returns (now dateNow : Z) (db : DB) :
  exists db', wrote now dateNow db = (Returned tt, db')
              /\ tables db' = tables db /\ writes db' = writes db + 1
              /\ disk db' = disk db /\ scanBuffer db' = scanBuffer db.
Proof.
  unfold wrote, bind at 1 2 3, modify, this. simpl.
  destruct (asyncPersistData_returns dateNow
              (with_writes (writes db + 1) (with_lastWrite now db)))
    as (db' & E & Ht & Hw & Hd & Hs).
  exists db'. rewrite E. simpl in *. auto.
Qed.

Lemma bind_returned {A B} (m : M A) (k : A -> M B) (db db' : DB) (a : A) :
  m db = (Returned a, db') -> bind m k db = k a db'.
Proof. intros E. unfold bind. rewrite E. reflexivity. Qed.

Lemma bind_thrown {A B} (m : M A) (k : A -> M B) (db db' : DB) (e : Error) :
  m db = (Thrown e, db') -> bind m k db = (Thrown e, db').
Proof. intros E. unfold bind. rewrite E. reflexivity. Qed.

Lemma the_table_Some (table : string) (db : DB) (tbl : Table) :
  tables db !! table = Some tbl -> the_table table db = (Returned tbl, db).
Proof. intros E. unfold_M. rewrite E. reflexivity. Qed.

Lemma the_table_None (table : string) (db : DB) :
  tables db !! table = None -> the_table table db = (Thrown TypeError, db).
Proof. intros E. unfold_M. rewrite E. reflexivity. Qed.

(** What [insert] does once the table is there. *)
Lemma insert_tail (now dateNow : Z) (table : string) (data : Row) (db : DB)
  (tbl : Table) :
  tables db !! table = Some tbl ->
  exists db',
    (tbl <- the_table table ;;
     set_table table (set_beforeLastId (lastId tbl)) ;;
     set_table table (set_lastId (js_inc (lastId tbl))) ;;
     set_table table
       (set_inserts
          (inserts tbl ++ [set_row_id (js_inc (lastId tbl)) data])) ;;
     wrote now dateNow ;;
     tbl' <- the_table table ;;
     ret (lastId tbl')) db
    = (Returned (js_inc (lastId tbl)), db')
    /\ tables db' = <[table := inserted data tbl]> (tables db)
    /\ writes db' = writes db + 1
    /\ disk db' = disk db /\ scanBuffer db' = scanBuffer db.
Proof.
  intros Ht1.
  rewrite (bind_returned _ _ _ _ _ (the_table_Some _ _ _ Ht1)).
  unfold set_table.
  do 3 (erewrite bind_returned; [|reflexivity]).
  match goal with |- context [bind (wrote now dateNow) _ ?d] =>
    destruct (wrote_returns now dateNow d) as (db2 & E2 & Ht2 & Hw2 & Hd2 & Hs2)
  end.
  rewrite (bind_returned _ _ _ _ _ E2).
  simpl in Ht2, Hw2, Hd2, Hs2.
  assert (Ht : tables db2 = <[table := inserted data tbl]> (tables db)).
  { rewrite Ht2.
    rewrite (alter_Some _ _ _ _ Ht1), alter_insert_eq, alter_insert_eq.
    rewrite <- (insert_id (tables db) table tbl Ht1) at 1.
    rewrite insert_insert_eq. reflexivity. }
  exists db2.
  erewrite bind_returned;
    [|apply the_table_Some; rewrite Ht; apply lookup_insert_eq].
  split; [reflexivity|]. split; [exact Ht|]. repeat split; congruence.
Qed.

Lemma insert_cases (freemem now dateNow : Z) (table : string) (data : Row)
  (db : DB) :
  let tbl := default emptyTable (tables db !! table) in
  (insert freemem now dateNow table data db
   = (Thrown LowMemory, with_timeout None db)
   /\ low_memory freemem db = true)
  \/ (insert freemem now dateNow table data db = (Thrown TypeError, db)
      /\ low_memory freemem db = false
      /\ tables db !! table = None /\ inherits (tables db) table = true)
  \/ (exists db',
       insert freemem now dateNow table data db
       = (Returned (js_inc (lastId tbl)), db')
       /\ tables db' = <[table := inserted data tbl]> (tables db)
       /\ writes db' = writes db + 1
       /\ disk db' = disk db /\ scanBuffer db' = scanBuffer db
       /\ low_memory freemem db = false
       /\ (tables db !! table = None -> inherits (tables db) table = false)).
Proof.
  intros tbl. unfold insert, low_memory.
  rewrite (bind_returned this _ db db db eq_refl).
  destruct (((writes db + 1) mod 250000 =? 0) && (freemem <? leastfree db)).
  { left. split; reflexivity. }
  right.
  destruct (tables db !! table) as [t|] eqn:E;
    [|destruct (inherits (tables db) table) eqn:Ei].
  - right. rewrite (bind_returned (ret tt) _ db db tt eq_refl).
    destruct (insert_tail now dateNow table data db t E)
      as (db' & E' & Ht & Hw & Hd & Hs).
    exists db'. subst tbl. simpl. rewrite E'. repeat split; auto. discriminate.
  - left. split; [reflexivity | auto].
  - right.
    rewrite (bind_returned (createTable table) _ db
               (with_tables <[table := emptyTable]> db) tt eq_refl).
    destruct (insert_tail now dateNow table data
                (with_tables <[table := emptyTable]> db) emptyTable)
      as (db' & E' & Ht & Hw & Hd & Hs).
    { simpl. apply lookup_insert_eq. }
    exists db'. subst tbl. simpl in *. rewrite E'.
    rewrite Ht, insert_insert_eq. repeat split; auto.
Qed.

(** ** Searching arrays *)

Lemma array_find_app_last {A} (p : A -> bool) (l : list A) (x : A) :
  p x = true -> is_Some (array_find p (l ++ [x])).
Proof.
  intros Hx. induction l as [|y l IH]; simpl.
  - rewrite Hx. eauto.
  - destruct (p y); eauto.
Qed.

Lemma findIndex_from_range {A} (p : A -> bool) (l : list A) (i : Z) :
  0 <= i ->
  findIndex_from p l i = -1
  \/ i <= findIndex_from p l i < i + Z.of_nat (length l).
Proof.
  revert i. induction l as [|y l IH]; intros i Hi; simpl; [auto|].
  destruct (p y); [right; lia|].
  destruct (IH (i + 1)) as [E | E]; [lia | auto | right; lia].
Qed.

Lemma array_find_insert {A} (p : A -> bool) (l : list A) (n : nat) (x : A) :
  (n < length l)%nat -> p x = true -> is_Some (array_find p (<[n := x]> l)).
Proof.
  revert n. induction l as [|y l IH]; intros n Hn Hx; simpl in *; [lia|].
  destruct n as [|n]; simpl.
  - rewrite Hx. eauto.
  - destruct (p y); [eauto|]. apply IH; [lia | assumption].
Qed.

Lemma array_find_none {A} (p : A -> bool) (l : list A) :
  (forall x, p x = false) -> array_find p l = None.
Proof. intros Hp. induction l as [|y l IH]; simpl; [|rewrite Hp]; auto. Qed.

(** No pending removal is ever taken for a tombstone: the test reads the
    property [id] of a number. *)
Lemma tombstone_false (id : Z) (removals : list Z) :
  tombstone id removals = false.
Proof. unfold tombstone. rewrite array_find_none; reflexivity. Qed.

(** ** The methods, case by case *)

Lemma get_keeps (table : string) (id : option Z) (db : DB) :
  (get table id db).2 = db.
Proof.
  unfold get. destruct id as [id|]; [|reflexivity].
  destruct (id =? 0); [reflexivity|].
  unfold bind, the_table, this, bind. destruct (tables db !! table); [|reflexivity].
  simpl. destruct (find_row id (updates t)); simpl.
  { reflexivity. }
  destruct (find_row id (inserts t)); simpl; [reflexivity|].
  destruct (tombstone id (removals t)); [reflexivity|].
  destruct (find_row id (cache t)); reflexivity.
Qed.

(** [get] of an id that a pending update or a pending insert holds. *)
Lemma get_buffered (table : string) (id : Z) (db : DB) (tbl : Table) :
  id <> 0 -> tables db !! table = Some tbl ->
  is_Some (find_row id (updates tbl)) \/ is_Some (find_row id (inserts tbl)) ->
  get table (Some id) db = (Returned Undefined, db).
Proof.
  intros Hid Ht Hbuf. unfold get.
  destruct (Z.eqb_spec id 0) as [|_]; [contradiction|].
  rewrite (bind_returned _ _ _ _ _ (the_table_Some _ _ _ Ht)).
  destruct (find_row id (updates tbl)); [reflexivity|].
  destruct Hbuf as [[? [=]] | [r E]]. rewrite E. reflexivity.
Qed.

(** [get] of an id that neither holds: the cache, then the files. *)
Lemma get_unbuffered (table : string) (id : Z) (db : DB) (tbl : Table) :
  id <> 0 -> tables db !! table = Some tbl ->
  find_row id (updates tbl) = None -> find_row id (inserts tbl) = None ->
  get table (Some id) db
  = (match find_row id (cache tbl) with
     | Some r => Returned (Item r)
     | None => scan_files db table id
     end, db).
Proof.
  intros Hid Ht Hu Hi. unfold get.
  destruct (Z.eqb_spec id 0) as [|_]; [contradiction|].
  rewrite (bind_returned _ _ _ _ _ (the_table_Some _ _ _ Ht)).
  rewrite Hu, Hi, tombstone_false.
  destruct (find_row id (cache tbl)); reflexivity.
Qed.

Lemma update_cases (now dateNow : Z) (table : string) (data : Row) (db : DB) :
  match row_id data with
  | None => update now dateNow table data db = (Thrown InvalidId, db)
  | Some id =>
      if id =? 0
      then update now dateNow table data db = (Thrown InvalidId, db)
      else match tables db !! table with
           | None => update now dateNow table data db = (Thrown TypeError, db)
           | Some tbl =>
               exists db',
               update now dateNow table data db = (Returned Undefined, db')
               /\ get table (Some id) db' = (Returned Undefined, db')
               /\ tables db' = <[table := updated id data tbl]> (tables db)
               /\ writes db' = writes db + 1
               /\ disk db' = disk db /\ scanBuffer db' = scanBuffer db
           end
  end.
Proof.
  unfold update. destruct (row_id data) as [id|] eqn:Eid; [|reflexivity].
  destruct (Z.eqb_spec id 0) as [|Hid]; [reflexivity|].
  destruct (tables db !! table) as [tbl|] eqn:Ht.
  2:{ apply bind_thrown, the_table_None, Ht. }
  rewrite (bind_returned _ _ _ _ _ (the_table_Some _ _ _ Ht)).
  set (db1 := with_tables (<[table := updated id data tbl]>) db).
  assert (H1 : (if array_findIndex (fun item => js_eq (row_id item) id) (inserts tbl) =? -1
                then set_table table (set_updates (updates tbl ++ [data]))
                else set_table table
                       (set_inserts
                          (<[Z.to_nat (array_findIndex
                               (fun item => js_eq (row_id item) id) (inserts tbl)) := data]>
                             (inserts tbl)))) db = (Returned tt, db1)).
  { subst db1. unfold updated, set_table, modify, with_tables.
    destruct (_ =? -1); rewrite (alter_Some _ _ _ _ Ht); reflexivity. }
  rewrite (bind_returned _ _ _ _ _ H1).
  destruct (wrote_returns now dateNow db1) as (db2 & E2 & Ht2 & Hw2 & Hd2 & Hs2).
  rewrite (bind_returned _ _ _ _ _ E2).
  exists db2. simpl in Ht2.
  enough (get table (Some id) db2 = (Returned Undefined, db2)) as Hget.
  { rewrite Hget. subst db1. simpl in Hw2, Hd2, Hs2. repeat split; assumption. }
  apply get_buffered with (tbl := updated id data tbl); [assumption| |].
  { rewrite Ht2. apply lookup_insert_eq. }
  unfold updated, array_findIndex.
  destruct (findIndex_from_range (fun item => js_eq (row_id item) id)
              (inserts tbl) 0 ltac:(lia)) as [E | E].
  - rewrite E. simpl. left. apply array_find_app_last.
    rewrite Eid. simpl. apply Z.eqb_refl.
  - destruct (Z.eqb_spec (findIndex_from (fun item => js_eq (row_id item) id)
                            (inserts tbl) 0) (-1)); [lia|].
    simpl. right. apply array_find_insert; [lia|].
    rewrite Eid. simpl. apply Z.eqb_refl.
Qed.

Lemma remove_cases (now dateNow : Z) (table : string) (id : option Z) (db : DB) :
  match id with
  | None => remove now dateNow table id db = (Thrown InvalidId, db)
  | Some n =>
      if n =? 0
      then remove now dateNow table id db = (Thrown InvalidId, db)
      else match tables db !! table with
           | None => remove now dateNow table id db = (Thrown TypeError, db)
           | Some tbl =>
               exists db',
               remove now dateNow table id db = (Returned true, db')
               /\ tables db' = <[table := removed n tbl]> (tables db)
               /\ writes db' = writes db + 1
               /\ disk db' = disk db /\ scanBuffer db' = scanBuffer db
           end
  end.
Proof.
  unfold remove. destruct id as [n|]; [|reflexivity].
  destruct (Z.eqb_spec n 0) as [|Hid]; [reflexivity|].
  destruct (tables db !! table) as [tbl|] eqn:Ht.
  2:{ apply bind_thrown, the_table_None, Ht. }
  rewrite (bind_returned _ _ _ _ _ (the_table_Some _ _ _ Ht)).
  set (db1 := with_tables (<[table := removed n tbl]>) db).
  assert (H1 : (if array_findIndex (fun item => js_eq (row_id item) n) (inserts tbl) =? -1
                then set_table table (set_removals (removals tbl ++ [n]))
                else set_table table
                       (set_inserts
                          (splice1 (Z.to_nat (array_findIndex
                               (fun item => js_eq (row_id item) n) (inserts tbl)))
                             (inserts tbl)))) db = (Returned tt, db1)).
  { subst db1. unfold removed, set_table, modify, with_tables.
    destruct (_ =? -1); rewrite (alter_Some _ _ _ _ Ht); reflexivity. }
  rewrite (bind_returned _ _ _ _ _ H1).
  destruct (wrote_returns now dateNow db1) as (db2 & E2 & Ht2 & Hw2 & Hd2 & Hs2).
  rewrite (bind_returned _ _ _ _ _ E2).
  exists db2. simpl in Ht2. auto.
Qed.

(** The scheduler with the forced flag set: [persistData] is called
    whatever the clock says, and the flag is cleared. *)
Lemma asyncPersistData_forced (dateNow : Z) (db : DB) :
  worthPersistingNow db = true ->
  asyncPersistData dateNow db
  = (Returned tt,
     with_worthPersistingNow false (with_persistCalls (S (persistCalls db)) db)).
Proof.
  intros Hw. unfold_M. rewrite Hw, !orb_true_r. reflexivity.
Qed.

Lemma truncate_cases (now dateNow : Z) (table : string) (start : option Z)
  (db : DB) :
  let k := default 0 start in
  match tables db !! table with
  | None => truncate now dateNow table start db = (Thrown TypeError, db)
  | Some tbl =>
      truncate now dateNow table start db
      = (Returned
           (array_findIndex (fun item => js_gt (row_id item) (Some k)) (items tbl)),
         mkDB (<[table := truncated k tbl]> (tables db)) (writes db + 1)
           (Some now) false (leastfree db) (lastPersistDataTimeout db)
           (S (persistCalls db)) (disk db) (scanBuffer db))
  end.
Proof.
  intros k. unfold truncate. fold k.
  destruct (tables db !! table) as [tbl|] eqn:Ht.
  2:{ apply bind_thrown, the_table_None, Ht. }
  rewrite (bind_returned _ _ _ _ _ (the_table_Some _ _ _ Ht)).
  unfold set_table.
  do 6 (erewrite bind_returned; [|reflexivity]).
  erewrite bind_returned; [|apply asyncPersistData_forced; reflexivity].
  unfold ret, with_tables, truncated. simpl. do 3 f_equal.
  rewrite (alter_Some _ _ _ _ Ht), alter_insert_eq. reflexivity.
Qed.

(** ** Reading back what was written *)

(** C1. In the code, [get] of the id that [insert] has just returned, and
    [get] of the id of the record that [update] has just taken, end
    without a [return]: the caller gets [undefined], not the record. The
    same holds for what [update] itself returns. *)
Theorem get_after_write_is_undefined (table : string) (db db' : DB) :
  (forall freemem now dateNow data id,
     insert freemem now dateNow table data db = (Returned id, db') ->
     id <> 0 ->
     get table (Some id) db' = (Returned Undefined, db'))
  /\ (forall now dateNow data id r,
        row_id data = Some id ->
        update now dateNow table data db = (Returned r, db') ->
        r = Undefined /\ get table (Some id) db' = (Returned Undefined, db')).
Proof.
  split.
  - intros freemem now dateNow data id Hins Hid.
    destruct (insert_cases freemem now dateNow table data db)
      as [[E _] | [[E _] | (db2 & E & Ht & _)]]; rewrite E in Hins;
      [discriminate | discriminate |].
    injection Hins as <- <-.
    eapply get_buffered; [assumption | rewrite Ht; apply lookup_insert_eq |].
    right. simpl. apply array_find_app_last. simpl. apply Z.eqb_refl.
  - intros now dateNow data id r Hid Hupd.
    pose proof (update_cases now dateNow table data db) as H.
    rewrite Hid in H. destruct (id =? 0); [congruence|].
    destruct (tables db !! table); [|congruence].
    destruct H as (db2 & E & Hget & _). rewrite E in Hupd.
    injection Hupd as <- <-. auto.
Qed.

(** The run that shows it: a customer is inserted into a fresh database
    and gets the id 1; [get] of 1 gives [undefined]. *)
Lemma get_after_write_is_undefined_witness :
  insert plenty 5 5 "customers" (customer "A") fresh
  = (Returned 1, one_customer)
  /\ get "customers" (Some 1) one_customer = (Returned Undefined, one_customer).
Proof.
  assert (H : insert plenty 5 5 "customers" (customer "A") fresh
              = (Returned 1, one_customer)) by (vm_compute; reflexivity).
  split; [exact H|].
  apply (proj1 (get_after_write_is_undefined "customers" fresh one_customer)
           plenty 5 5 (customer "A") 1 H).
  lia.
Defined.

(** ** One call *)

Lemma lift_returned {A} (f : A -> Result) (m : M A) (db db' : DB) (a : A) :
  m db = (Returned a, db') -> lift f m db = (Returned (f a), db').
Proof. intros E. unfold lift. rewrite (bind_returned _ _ _ _ _ E). reflexivity. Qed.

Lemma lift_thrown {A} (f : A -> Result) (m : M A) (db db' : DB) (e : Error) :
  m db = (Thrown e, db') -> lift f m db = (Thrown e, db').
Proof. intros E. unfold lift. apply bind_thrown, E. Qed.

Lemma insert_id_table {A} (m : gmap string A) (i : string) (x : A) :
  m !! i = Some x -> m = <[i := x]> m.
Proof. intros E. symmetry. apply insert_id, E. Qed.

(** A call that throws leaves the tables as they were; a call that
    returns has applied its effect to its table; [insert] returns the
    [lastId] it has set. *)
Lemma call_effect (c : Call) (db : DB) :
  let tbl := default emptyTable (tables db !! table_of c) in
  match (call c db).1 with
  | Thrown _ => tables (call c db).2 = tables db
  | Returned r =>
      tables (call c db).2
      = (if files_only c then tables db
         else <[table_of c := table_effect c tbl]> (tables db))
      /\ match c with
         | CallInsert _ _ _ _ _ => r = RNumber (js_inc (lastId tbl))
         | CallCreateTable _ | CallGetAll _ _ => True
         | _ => is_Some (tables db !! table_of c)
         end
  end.
Proof.
  intros tbl. subst tbl. destruct c as [freemem now dateNow table data
    | now dateNow table data | now dateNow table id | now dateNow table start
    | table id | table | table until]; simpl.
  - destruct (insert_cases freemem now dateNow table data db)
      as [[E _] | [[E _] | (db' & E & Ht & _)]].
    + rewrite (lift_thrown _ _ _ _ _ E). reflexivity.
    + rewrite (lift_thrown _ _ _ _ _ E). reflexivity.
    + rewrite (lift_returned _ _ _ _ _ E). simpl. split; [exact Ht|].
      reflexivity.
  - pose proof (update_cases now dateNow table data db) as H.
    destruct (row_id data) as [id|].
    2:{ rewrite (lift_thrown _ _ _ _ _ H). reflexivity. }
    destruct (id =? 0).
    { rewrite (lift_thrown _ _ _ _ _ H). reflexivity. }
    destruct (tables db !! table) as [tbl|].
    2:{ rewrite (lift_thrown _ _ _ _ _ H). reflexivity. }
    destruct H as (db' & E & _ & Ht & _).
    rewrite (lift_returned _ _ _ _ _ E). simpl. split; [exact Ht|].
    eauto.
  - pose proof (remove_cases now dateNow table id db) as H.
    destruct id as [n|].
    2:{ rewrite (lift_thrown _ _ _ _ _ H). reflexivity. }
    destruct (n =? 0).
    { rewrite (lift_thrown _ _ _ _ _ H). reflexivity. }
    destruct (tables db !! table) as [tbl|].
    2:{ rewrite (lift_thrown _ _ _ _ _ H). reflexivity. }
    destruct H as (db' & E & Ht & _).
    rewrite (lift_returned _ _ _ _ _ E). simpl. split; [exact Ht|].
    eauto.
  - pose proof (truncate_cases now dateNow table start db) as H. simpl in H.
    destruct (tables db !! table) as [tbl|].
    2:{ rewrite (lift_thrown _ _ _ _ _ H). reflexivity. }
    rewrite (lift_returned _ _ _ _ _ H). simpl. split; [reflexivity|].
    eauto.
  - unfold lift, bind.
    pose proof (get_keeps table id db) as Hk.
    destruct (get table id db) as [[r|e] db'] eqn:E; simpl in *; subst db'.
    2:{ reflexivity. }
    assert (is_Some (tables db !! table)) as [tbl Ht].
    { unfold get in E. destruct id as [n|]; [|discriminate].
      destruct (n =? 0); [discriminate|].
      destruct (tables db !! table) eqn:Ht; [eauto|].
      rewrite (bind_thrown _ _ _ _ _ (the_table_None _ _ Ht)) in E.
      discriminate. }
    rewrite Ht. simpl. split; [apply insert_id_table, Ht|].
    eauto.
  - split; reflexivity.
  - unfold lift, bind, getAll.
    destruct (match files_of (disk db) table with Some _ => _ | None => _ end);
      simpl; auto.
Qed.

(** ** The ids that [insert] assigns *)










(** ** Removing and reading *)

(** What [get] returns does not depend on the pending removals. *)
Lemma get_ignores_removals (table : string) (id : option Z) (db : DB) :
  (get table id db).1 = (get table id (without_removals table db)).1.
Proof.
  unfold get. destruct id as [n|]; [|reflexivity].
  destruct (n =? 0); [reflexivity|].
  destruct (tables db !! table) as [tbl|] eqn:Ht.
  - rewrite (bind_returned _ _ _ _ _ (the_table_Some _ _ _ Ht)).
    assert (Ht' : tables (without_removals table db) !! table
                  = Some (set_removals [] tbl)).
    { simpl. rewrite lookup_alter_eq, Ht. reflexivity. }
    rewrite (bind_returned _ _ _ _ _ (the_table_Some _ _ _ Ht')).
    simpl. rewrite !tombstone_false.
    destruct (find_row n (updates tbl)); [reflexivity|].
    destruct (find_row n (inserts tbl)); [reflexivity|].
    destruct (find_row n (cache tbl)); reflexivity.
  - assert (Ht' : tables (without_removals table db) !! table = None).
    { simpl. rewrite lookup_alter_eq, Ht. reflexivity. }
    rewrite (bind_thrown _ _ _ _ _ (the_table_None _ _ Ht)).
    rewrite (bind_thrown _ _ _ _ _ (the_table_None _ _ Ht')).
    reflexivity.
Qed.

(** C2. In the code a pending removal is no tombstone: what [get] returns
    is what it would return with the removals forgotten. In a database
    that was never flushed, [remove] of the id 2 queues the removal and
    [get] of 2 then goes to the index file, which is absent, and throws. *)
Theorem get_after_remove_reads_files :
  (forall table id db,
     (get table id db).1 = (get table id (without_removals table db)).1)
  /\ remove 6 6 "customers" (Some 2) one_customer = (Returned true, after_remove)
  /\ removals <$> tables after_remove !! "customers" = Some [2]
  /\ persistCalls after_remove = 0%nat
  /\ get "customers" (Some 2) after_remove = (Thrown ENOENT, after_remove).
Proof.
  split; [exact get_ignores_removals|].
  repeat split; vm_compute; reflexivity.
Qed.

(** ** Truncating *)

(** No call fills [items]: in every table of a database reached from a
    fresh one it is the empty array. *)
Lemma table_effect_items (c : Call) (tbl : Table) :
  items tbl = [] -> items (table_effect c tbl) = [].
Proof.
  intros Hi.
  destruct c as [? ? ? t data|? ? t data|? ? t id|? ? t start|t id|t|t u];
    simpl;
    try assumption; try reflexivity.
  - destruct (row_id data); [|assumption]. unfold updated.
    destruct (_ =? -1); assumption.
  - destruct id; [|assumption]. unfold removed.
    destruct (_ =? -1); assumption.
Qed.

Lemma call_items (c : Call) (db : DB) :
  (forall table tbl, tables db !! table = Some tbl -> items tbl = []) ->
  forall table tbl, tables (call c db).2 !! table = Some tbl -> items tbl = [].
Proof.
  intros Hinv table tbl. pose proof (call_effect c db) as H. simpl in H.
  destruct ((call c db).1) as [r|e].
  2:{ rewrite H. apply Hinv. }
  destruct H as [-> _]. destruct (files_only c); [apply Hinv|].
  rewrite lookup_insert.
  case_decide as Heq; [|apply Hinv].
  intros [= <-]. apply table_effect_items.
  destruct (tables db !! table_of c) eqn:E; simpl; [eapply Hinv, E | reflexivity].
Qed.

Lemma run_items (cs : list Call) (db : DB) :
  (forall table tbl, tables db !! table = Some tbl -> items tbl = []) ->
  forall table tbl, tables (run cs db) !! table = Some tbl -> items tbl = [].
Proof.
  revert db. induction cs as [|c cs IH]; intros db Hinv; simpl; [exact Hinv|].
  apply IH, call_items, Hinv.
Qed.

(** C3. [truncate] of an existing table sets the table's marker and its
    [lastId] to the threshold and has [persistData] called whatever the
    clock says, the forced flag being cleared by that call. What it
    returns is the position in [items] of the first record above the
    threshold, and [items] is empty in every database that calls have
    built from a fresh one: it returns [-1]. With three customers
    buffered, [truncate] to 1 returns [-1] while two buffered records
    have an id above 1. *)
Theorem truncate_returns_index_in_items :
  (forall now dateNow table start db tbl,
     tables db !! table = Some tbl ->
     let k := default 0 start in
     let r := truncate now dateNow table start db in
     r.1 = Returned (array_findIndex
                       (fun item => js_gt (row_id item) (Some k)) (items tbl))
     /\ tables r.2 !! table = Some (truncated k tbl)
     /\ truncateAt (truncated k tbl) = k /\ lastId (truncated k tbl) = k
     /\ persistCalls r.2 = S (persistCalls db)
     /\ worthPersistingNow r.2 = false)
  /\ (forall cs now dateNow table start tbl,
        tables (run cs fresh) !! table = Some tbl ->
        (truncate now dateNow table start (run cs fresh)).1 = Returned (-1))
  /\ (truncate 6 6 "customers" (Some 1) three_customers).1 = Returned (-1)
  /\ buffered_above 1 <$> tables three_customers !! "customers" = Some 2.
Proof.
  split; [|split].
  - intros now dateNow table start db tbl Ht k r. subst r k.
    pose proof (truncate_cases now dateNow table start db) as H. simpl in H.
    rewrite Ht in H. rewrite H. simpl. rewrite lookup_insert_eq. auto 10.
  - intros cs now dateNow table start tbl Ht.
    pose proof (truncate_cases now dateNow table start (run cs fresh)) as H.
    simpl in H. rewrite Ht in H. rewrite H. simpl.
    rewrite (run_items cs fresh) with (table := table) (tbl := tbl);
      [reflexivity | | exact Ht].
    intros t tb. simpl. rewrite lookup_empty. discriminate.
  - split; vm_compute; reflexivity.
Qed.

(** The run for C3: the table exists, and [truncate] to 1 returns [-1]. *)
Lemma truncate_returns_index_in_items_witness :
  tables (run three_inserts fresh) !! "customers" = Some customers_table
  /\ (truncate 6 6 "customers" (Some 1) (run three_inserts fresh)).1
     = Returned (-1).
Proof.
  assert (H : tables (run three_inserts fresh) !! "customers"
              = Some customers_table) by (vm_compute; reflexivity).
  split; [exact H|].
  exact (proj1 (proj2 truncate_returns_index_in_items)
           three_inserts 6 6 "customers" (Some 1) customers_table H).
Defined.

(** ** Ids that are missing or zero *)

(** C5, as the code has it. [get], [remove] and [update] called with an
    id that is missing or zero throw the error of the invalid id and
    leave the database object as it was. [truncate] tests nothing: it
    never throws that error, and a missing threshold is the threshold 0. *)
Theorem invalid_id_rejected (now dateNow : Z) (table : string) (db : DB) :
  (forall id, id = None \/ id = Some 0 ->
     get table id db = (Thrown InvalidId, db)
     /\ remove now dateNow table id db = (Thrown InvalidId, db))
  /\ (forall data, row_id data = None \/ row_id data = Some 0 ->
        update now dateNow table data db = (Thrown InvalidId, db))
  /\ truncate now dateNow table None db = truncate now dateNow table (Some 0) db
  /\ (forall start, (truncate now dateNow table start db).1 <> Thrown InvalidId).
Proof.
  split; [|split; [|split]].
  - intros id [-> | ->]; split; reflexivity.
  - intros data H. unfold update. destruct H as [-> | ->]; reflexivity.
  - reflexivity.
  - intros start. pose proof (truncate_cases now dateNow table start db) as H.
    simpl in H. destruct (tables db !! table); rewrite H; discriminate.
Qed.

Lemma invalid_id_rejected_witness :
  get "customers" None three_customers = (Thrown InvalidId, three_customers)
  /\ remove 6 6 "customers" (Some 0) three_customers
     = (Thrown InvalidId, three_customers).
Proof.
  split.
  - apply (proj1 (invalid_id_rejected 6 6 "customers" three_customers) None).
    left. reflexivity.
  - apply (proj1 (invalid_id_rejected 6 6 "customers" three_customers) (Some 0)).
    right. reflexivity.
Defined.

(** C5 as stated fails: [truncate] called without a threshold on the table
    of the three customers returns, and it has reset [lastId] from 3 to 0
    and counted a write. *)
Lemma truncate_without_start_mutates :
  let r := truncate 6 6 "customers" None three_customers in
  r.1 = Returned (-1)
  /\ r <> (Thrown InvalidId, three_customers)
  /\ lastId_of "customers" three_customers = 3
  /\ lastId_of "customers" r.2 = 0
  /\ writes three_customers = 3 /\ writes r.2 = 4.
Proof.
  cbv zeta. split; [vm_compute; reflexivity|]. split.
  - intros H. apply (f_equal fst) in H. vm_compute in H. discriminate.
  - repeat split; vm_compute; reflexivity.
Qed.


(** ** The removals of a flush *)

Lemma removal_cmp_zero (a b : Z) : removal_cmp a b = 0.
Proof. reflexivity. Qed.

(** The sort of [persistData] leaves the removals in the order in which
    [remove] queued them. *)
Lemma sort_removals_id (l : list Z) : array_sort removal_cmp l = l.
Proof.
  induction l as [|x l IH]; simpl; [reflexivity|]. rewrite IH.
  destruct l; reflexivity.
Qed.

(** A pass for a removal that is not above [lastId] drops the lines of
    that id and no other line; a pass for a removal above [lastId] copies
    every line. *)
Lemma removal_pass_within (tbl : Table) (removal : Z) (lines : list string) :
  removal <= lastId tbl ->
  removal_pass tbl removal lines
  = List.filter (fun next => negb (js_eq (parse_line next).2 removal)) lines.
Proof.
  intros Hle. unfold removal_pass, copied.
  apply Z.leb_le in Hle. rewrite Hle.
  apply List.filter_ext. intros next. rewrite andb_true_r. reflexivity.
Qed.

Lemma removal_pass_above (tbl : Table) (removal : Z) (lines : list string) :
  lastId tbl < removal -> removal_pass tbl removal lines = lines.
Proof.
  intros Hlt. unfold removal_pass, copied.
  apply Z.leb_gt in Hlt. rewrite Hlt.
  induction lines as [|next lines IH]; simpl; [reflexivity|].
  rewrite andb_false_r. simpl. f_equal. exact IH.
Qed.

(** C7. In the code the removals are processed in the order in which they
    were queued, whatever their ids: the function given to [sort] reads
    the property [id] of numbers. With 3 removed before 1, the pass for 3
    comes first. A pass for an id that is not above [lastId] drops the
    lines of that id and copies every other line; a pass for an id above
    [lastId] copies every line. *)
Theorem removals_keep_queue_order :
  (forall tbl lines, map fst (persist_removals tbl lines) = removals tbl)
  /\ removals removals_table = [3; 1]
  /\ persist_removals removals_table index_of_three
     = [ (3, ["3"; "12,1"; "12,2"]); (1, ["3"; "12,2"; "12,3"]) ]
  /\ (forall tbl removal lines,
        removal_pass tbl removal lines
        = if removal <=? lastId tbl
          then List.filter
                 (fun next => negb (js_eq (parse_line next).2 removal)) lines
          else lines).
Proof.
  split; [|split; [|split]]; [| vm_compute; reflexivity .. |].
  - intros tbl lines. unfold persist_removals.
    rewrite sort_removals_id, map_map. simpl. apply map_id.
  - intros tbl removal lines. destruct (Z.leb_spec removal (lastId tbl)).
    + apply removal_pass_within. assumption.
    + apply removal_pass_above. assumption.
Qed.

(** ** The row container *)

(** A field name that is no property name of an array is appended to the
    directory by [push] and by [set], also when the directory has it. *)
Lemma register_appends (key : string) (fs : list string) :
  key_in_array key (length fs) = false -> EffSet.register key fs = (fs ++ [key])%list.
Proof. intros H. unfold EffSet.register. rewrite H. reflexivity. Qed.

(** C8. In the code [push] tests the field name with [in] against the
    directory, which asks for an index or a property of the array and not
    for an element: the name [a] is appended at every push. After two
    records [{a: 1}] and [{a: 2}] the directory is [a, a], and [get]
    gives [{a: undefined}] for both, the second position of either entry
    being empty. After [{a: 1}] and [{b: 2}], [get(1)] has the field [a],
    which the record lacked, with [undefined]. *)
Theorem push_registers_known_fields_again :
  (forall v s,
     EffSet.fields (EffSet.push [("a", v)] s)
     = (EffSet.fields s ++ ["a"])%list)
  /\ EffSet.fields pushed_twice = ["a"; "a"]
  /\ EffSet.get 1 pushed_twice = Some [("a", VUndef)]
  /\ EffSet.get 0 pushed_twice = Some [("a", VUndef)]
  /\ EffSet.get 1 pushed_a_then_b = Some [("a", VUndef); ("b", VNum 2)].
Proof.
  split; [|repeat split; vm_compute; reflexivity].
  intros v s. unfold EffSet.push. simpl. apply register_appends.
  unfold key_in_array. rewrite !orb_false_r.
  apply not_true_iff_false. intros H.
  apply existsb_exists in H as (i & _ & H). apply String.eqb_eq in H.
  unfold string_of_nat in H. destruct (Nat.to_uint i); discriminate.
Qed.

Lemma array_get_set {A} (i : nat) (x : A) (arr : list (option A)) :
  array_get i (array_set i x arr) = Some x.
Proof.
  unfold array_get, array_set. destruct (Nat.ltb_spec i (length arr)).
  - rewrite list_lookup_insert_eq by assumption. reflexivity.
  - rewrite lookup_app_r by assumption.
    rewrite lookup_app_r by (rewrite length_replicate; lia).
    rewrite length_replicate, Nat.sub_diag. reflexivity.
Qed.

(** After [set(i, elem)] the entry at [i] is the one made in the last turn
    of the loop: it holds the last field of [elem] and nothing else. *)
Lemma set_last_field (index : nat) (elem : object) (k : string) (v : value)
  (s : EffSet.t) :
  let s' := EffSet.set index (elem ++ [(k, v)])%list s in
  array_get index (EffSet.entries s')
  = Some (EffSet.store k v (EffSet.fields s') []).
Proof.
  unfold EffSet.set. rewrite foldl_snoc. simpl. apply array_get_set.
Qed.

(** C9. In the code [set] makes the entry anew for every field of the
    record, so the entry that stays holds the last field only: after
    [set(i, elem)] the entry at [i] is the one stored for the last field
    of [elem] alone, and after [set(0, {a: 1, b: 2})], [get(0)] gives
    [{a: undefined, b: 2}]. And as
    [set] appends to the directory like [push], [set(1, {a: 2})] after
    [push({a: 1})] changes what [get(0)] gives to [{a: undefined}]. *)
Theorem set_keeps_last_field_only :
  (forall index elem k v s,
     let s' := EffSet.set index (elem ++ [(k, v)])%list s in
     array_get index (EffSet.entries s')
     = Some (EffSet.store k v (EffSet.fields s') []))
  /\ EffSet.entries set_a_and_b = [Some [None; Some (VNum 2)]]
  /\ EffSet.get 0 set_a_and_b = Some [("a", VUndef); ("b", VNum 2)]
  /\ EffSet.get 0 (EffSet.push [("a", VNum 1)] EffSet.new)
     = Some [("a", VNum 1)]
  /\ EffSet.get 0 pushed_then_set = Some [("a", VUndef)].
Proof.
  split; [exact set_last_field|].
  repeat split; vm_compute; reflexivity.
Qed.

(** ** Startup *)

Lemma recover_tables_absent (l : list (string * Files)) (tableName : string)
  (f : Files) :
  (tableName, f) ∈ l -> index f = None -> recover_tables l = Thrown ENOENT.
Proof.
  intros Hin Hf. induction l as [|[n g] l IH]; [inversion Hin|].
  simpl. apply elem_of_cons in Hin as [[= <- <-] | Hin].
  - unfold recover_lastId. rewrite Hf. reflexivity.
  - unfold recover_lastId. destruct (index g) as [[|next lines]|];
      [rewrite (IH Hin) .. |]; reflexivity.
Qed.

Lemma recover_tables_present (l : list (string * Files)) :
  (forall n g, (n, g) ∈ l -> is_Some (index g)) ->
  exists r, recover_tables l = Returned r
            /\ forall n g, (n, g) ∈ l -> index g = Some [] -> (n, Some 0) ∈ r.
Proof.
  induction l as [|[n g] l IH]; intros Hall.
  { exists []. split; [reflexivity|]. intros n g Hin. inversion Hin. }
  destruct IH as (r & Hr & Hzero).
  { intros n' g' Hin. apply (Hall n' g'). apply elem_of_cons. auto. }
  destruct (Hall n g) as [lines Hg]; [apply elem_of_cons; auto|].
  simpl. unfold recover_lastId. rewrite Hg, Hr.
  destruct lines as [|next lines]; eexists; (split; [reflexivity|]);
    intros n' g' Hin Hg'; apply elem_of_cons in Hin as [[= -> ->] | Hin];
    apply elem_of_cons; eauto; congruence.
Qed.

(** C10, as the code has it. At the startup of an existing database a
    table directory whose index file is absent makes the constructor
    throw. An index file that is there but has no line is accepted: when
    every table directory has its index file, startup returns, and such a
    table starts with [lastId] 0. *)
Theorem startup_index_file (d : Disk) (dirs : gmap string Files)
  (tableName : string) (f : Files) :
  stamp d = true -> tabledirs d = Some dirs -> dirs !! tableName = Some f ->
  (index f = None -> initialize d = Thrown ENOENT)
  /\ (index f = Some [] ->
      (forall n g, dirs !! n = Some g -> is_Some (index g)) ->
      exists r, initialize d = Returned r /\ (tableName, Some 0) ∈ r).
Proof.
  intros Hstamp Hdirs Hf. unfold initialize. rewrite Hstamp, Hdirs.
  apply elem_of_map_to_list in Hf. split.
  - intros Hnone. eapply recover_tables_absent; eassumption.
  - intros Hempty Hall.
    destruct (recover_tables_present (map_to_list dirs)) as (r & Hr & Hzero).
    { intros n g Hin. apply elem_of_map_to_list in Hin. eauto. }
    exists r. split; [exact Hr|]. eapply Hzero; eassumption.
Qed.

Lemma startup_index_file_witness :
  initialize (mkDisk true (Some {[ "customers" := mkFiles None true ]}))
  = Thrown ENOENT.
Proof.
  apply (startup_index_file
           (mkDisk true (Some {[ "customers" := mkFiles None true ]}))
           {[ "customers" := mkFiles None true ]} "customers"
           (mkFiles None true)); reflexivity.
Defined.

(** C10 as stated fails: with the stamp there and the index file of the
    one table directory empty, startup returns and the table has
    [lastId] 0. *)
Lemma empty_index_starts_at_0 :
  stamp empty_index = true
  /\ (index <$> (tabledirs empty_index ≫= (.!! "customers"))) = Some (Some [])
  /\ initialize empty_index = Returned [("customers", Some 0)].
Proof. repeat split; vm_compute; reflexivity. Qed.

Example parseInt_examples :
  parseInt "12,3" = Some 12 /\ parseInt "false" = None /\ parseInt "" = None
  /\ parseInt " -7x" = Some (-7) /\ parseInt "0x1f" = Some 31
  /\ split_on "," "12,3" = ["12"; "3"] /\ split_on "," "5" = ["5"]
  /\ parse_line "12,3" = (Some 12, Some 3) /\ parse_line "3" = (Some 3, None).
Proof. repeat split; reflexivity. Qed.

(** * Further properties of the code *)

Local Open Scope list_scope.

(** ** The first match in an array *)

Lemma findIndex_from_none {A} (p : A -> bool) (l : list A) (i : Z) :
  array_find p l = None -> findIndex_from p l i = -1.
Proof.
  revert i. induction l as [|y l IH]; intros i; simpl; [reflexivity|].
  destruct (p y); [discriminate | apply IH].
Qed.

(** Where [findIndex] points when [find] finds: the array splits at the
    first match. *)
Lemma findIndex_from_split {A} (p : A -> bool) (l : list A) (x : A) (i : Z) :
  array_find p l = Some x ->
  exists l1 l2,
    l = l1 ++ x :: l2 /\ array_find p l1 = None
    /\ findIndex_from p l i = i + Z.of_nat (length l1).
Proof.
  revert i. induction l as [|y l IH]; intros i; simpl; [discriminate|].
  destruct (p y) eqn:E.
  - intros [= <-]. exists [], l. simpl. repeat split. lia.
  - intros Hx. destruct (IH (i + 1) Hx) as (l1 & l2 & -> & Hn & Hi).
    exists (y :: l1), l2. simpl. rewrite E, Hi. repeat split; [assumption|lia].
Qed.

Lemma splice1_middle {A} (l1 l2 : list A) (x : A) :
  splice1 (length l1) (l1 ++ x :: l2) = l1 ++ l2.
Proof.
  unfold splice1. rewrite take_app_length.
  rewrite drop_app_ge by lia.
  replace (S (length l1) - length l1)%nat with 1%nat by lia. reflexivity.
Qed.

Lemma insert_middle {A} (l1 l2 : list A) (x y : A) :
  <[length l1 := y]> (l1 ++ x :: l2) = l1 ++ y :: l2.
Proof.
  rewrite insert_app_r_alt by lia.
  rewrite Nat.sub_diag. reflexivity.
Qed.

(** ** The methods, exactly *)

Lemma asyncPersistData_pair (dateNow : Z) (db : DB) :
  asyncPersistData dateNow db = (Returned tt, (asyncPersistData dateNow db).2).
Proof.
  destruct (asyncPersistData_returns dateNow db) as (db' & E & _).
  rewrite E. reflexivity.
Qed.

Lemma wrote_exact (now dateNow : Z) (db : DB) :
  wrote now dateNow db
  = (Returned tt,
     (asyncPersistData dateNow
        (with_writes (writes db + 1) (with_lastWrite now db))).2).
Proof.
  unfold wrote, bind at 1 2 3, modify, this. simpl.
  apply asyncPersistData_pair.
Qed.

Lemma with_tables_alter (f : Table -> Table) (table : string) (tbl : Table)
  (db : DB) :
  tables db !! table = Some tbl ->
  with_tables (alter f table) db = with_tables <[table := f tbl]> db.
Proof. intros Ht. unfold with_tables. rewrite (alter_Some _ _ _ _ Ht). reflexivity. Qed.

Lemma remove_exact (now dateNow : Z) (table : string) (n : Z) (db : DB)
  (tbl : Table) :
  tables db !! table = Some tbl -> n <> 0 ->
  remove now dateNow table (Some n) db
  = (Returned true, written now dateNow table (removed n tbl) db).
Proof.
  intros Ht Hn. unfold remove.
  destruct (Z.eqb_spec n 0) as [|_]; [contradiction|].
  rewrite (bind_returned _ _ _ _ _ (the_table_Some _ _ _ Ht)).
  assert (H1 : (if array_findIndex (fun item => js_eq (row_id item) n) (inserts tbl) =? -1
                then set_table table (set_removals (removals tbl ++ [n]))
                else set_table table
                       (set_inserts
                          (splice1 (Z.to_nat (array_findIndex
                               (fun item => js_eq (row_id item) n) (inserts tbl)))
                             (inserts tbl)))) db
               = (Returned tt, with_tables <[table := removed n tbl]> db)).
  { unfold removed, set_table, modify.
    destruct (_ =? -1); rewrite (with_tables_alter _ _ _ _ Ht); reflexivity. }
  rewrite (bind_returned _ _ _ _ _ H1).
  rewrite (bind_returned _ _ _ _ _ (wrote_exact _ _ _)). reflexivity.
Qed.

Lemma written_tables (now dateNow : Z) (table : string) (tbl' : Table) (db : DB) :
  tables (written now dateNow table tbl' db) = <[table := tbl']> (tables db).
Proof.
  unfold written.
  match goal with |- context [asyncPersistData dateNow ?d] =>
    destruct (asyncPersistData_returns dateNow d) as (db' & E & Ht & _) end.
  rewrite E. simpl. rewrite Ht. reflexivity.
Qed.

Lemma update_exact (now dateNow : Z) (table : string) (data : Row) (id : Z)
  (db : DB) (tbl : Table) :
  tables db !! table = Some tbl -> row_id data = Some id -> id <> 0 ->
  update now dateNow table data db
  = (Returned Undefined, written now dateNow table (updated id data tbl) db).
Proof.
  intros Ht Hid Hn.
  pose proof (update_cases now dateNow table data db) as H.
  rewrite Hid, Ht in H. destruct (Z.eqb_spec id 0) as [|_]; [contradiction|].
  destruct H as (db' & E & _). rewrite E. f_equal.
  (* the object after the call is the one [get] was given *)
  unfold update in E. rewrite Hid in E.
  destruct (Z.eqb_spec id 0) as [|_]; [contradiction|].
  rewrite (bind_returned _ _ _ _ _ (the_table_Some _ _ _ Ht)) in E.
  assert (H1 : (if array_findIndex (fun item => js_eq (row_id item) id) (inserts tbl) =? -1
                then set_table table (set_updates (updates tbl ++ [data]))
                else set_table table
                       (set_inserts
                          (<[Z.to_nat (array_findIndex
                               (fun item => js_eq (row_id item) id) (inserts tbl)) := data]>
                             (inserts tbl)))) db
               = (Returned tt, with_tables <[table := updated id data tbl]> db)).
  { unfold updated, set_table, modify.
    destruct (_ =? -1); rewrite (with_tables_alter _ _ _ _ Ht); reflexivity. }
  rewrite (bind_returned _ _ _ _ _ H1) in E.
  rewrite (bind_returned _ _ _ _ _ (wrote_exact _ _ _)) in E.
  match type of E with get _ _ ?d = _ =>
    pose proof (get_keeps table (Some id) d) as Hk end.
  rewrite E in Hk. simpl in Hk. subst db'. reflexivity.
Qed.

Lemma insert_tail_exact (now dateNow : Z) (table : string) (data : Row)
  (db : DB) (tbl : Table) :
  tables db !! table = Some tbl ->
  (tbl <- the_table table ;;
   set_table table (set_beforeLastId (lastId tbl)) ;;
   set_table table (set_lastId (js_inc (lastId tbl))) ;;
   set_table table
     (set_inserts (inserts tbl ++ [set_row_id (js_inc (lastId tbl)) data])) ;;
   wrote now dateNow ;;
   tbl' <- the_table table ;;
   ret (lastId tbl')) db
  = (Returned (js_inc (lastId tbl)),
     written now dateNow table (inserted data tbl) db).
Proof.
  intros Ht1.
  rewrite (bind_returned _ _ _ _ _ (the_table_Some _ _ _ Ht1)).
  unfold set_table.
  do 3 (erewrite bind_returned; [|reflexivity]).
  rewrite (bind_returned _ _ _ _ _ (wrote_exact _ _ _)).
  assert (Hdb : with_tables
                  (alter (set_inserts
                            (inserts tbl ++ [set_row_id (js_inc (lastId tbl)) data]))
                     table)
                  (with_tables (alter (set_lastId (js_inc (lastId tbl))) table)
                     (with_tables (alter (set_beforeLastId (lastId tbl)) table) db))
                = with_tables <[table := inserted data tbl]> db).
  { unfold with_tables. simpl. f_equal.
    rewrite (alter_Some _ _ _ _ Ht1), alter_insert_eq, alter_insert_eq.
    reflexivity. }
  rewrite Hdb.
  erewrite bind_returned;
    [|apply the_table_Some;
      exact (eq_trans
               (f_equal (fun m => m !! table)
                  (written_tables now dateNow table (inserted data tbl) db))
               (lookup_insert_eq _ _ _))].
  reflexivity.
Qed.

Lemma insert_exact (freemem now dateNow : Z) (table : string) (data : Row)
  (db : DB) :
  let tbl := default emptyTable (tables db !! table) in
  low_memory freemem db = false ->
  (tables db !! table = None -> inherits (tables db) table = false) ->
  insert freemem now dateNow table data db
  = (Returned (js_inc (lastId tbl)),
     written now dateNow table (inserted data tbl) db).
Proof.
  intros tbl Hmem Hinh. unfold insert. unfold low_memory in Hmem.
  rewrite (bind_returned this _ db db db eq_refl). rewrite Hmem.
  subst tbl. destruct (tables db !! table) as [t|] eqn:E.
  - rewrite (bind_returned (ret tt) _ db db tt eq_refl).
    apply insert_tail_exact, E.
  - rewrite (Hinh eq_refl).
    rewrite (bind_returned (createTable table) _ db
               (with_tables <[table := emptyTable]> db) tt eq_refl).
    rewrite (insert_tail_exact now dateNow table data _ emptyTable)
      by apply lookup_insert_eq.
    simpl. unfold written, with_tables. simpl.
    rewrite insert_insert_eq. reflexivity.
Qed.

(** ** Reading *)

(** X1. [get] leaves the database object as it was, whatever it returns or
    throws; in particular it puts nothing into the cache. *)
Theorem get_is_read_only (table : string) (id : option Z) (db : DB) :
  (get table id db).2 = db.
Proof. apply get_keeps. Qed.

Lemma table_effect_cache (c : Call) (tbl : Table) :
  cache tbl = [] -> cache (table_effect c tbl) = [].
Proof.
  intros Hc.
  destruct c as [? ? ? t data|? ? t data|? ? t id|? ? t start|t id|t|t u];
    simpl;
    try assumption; try reflexivity.
  - destruct (row_id data); [|assumption]. unfold updated.
    destruct (_ =? -1); assumption.
  - destruct id; [|assumption]. unfold removed.
    destruct (_ =? -1); assumption.
Qed.

Lemma run_cache (cs : list Call) (db : DB) :
  (forall table tbl, tables db !! table = Some tbl -> cache tbl = []) ->
  forall table tbl, tables (run cs db) !! table = Some tbl -> cache tbl = [].
Proof.
  revert db. induction cs as [|c cs IH]; intros db Hinv; simpl; [exact Hinv|].
  apply IH. intros table tbl.
  pose proof (call_effect c db) as H. simpl in H.
  destruct ((call c db).1) as [r|e].
  2:{ rewrite H. apply Hinv. }
  destruct H as [-> _]. destruct (files_only c); [apply Hinv|].
  rewrite lookup_insert.
  case_decide as Heq; [|apply Hinv].
  intros [= <-]. apply table_effect_cache.
  destruct (tables db !! table_of c) eqn:E; simpl; [eapply Hinv, E | reflexivity].
Qed.

(** X2. No call of [insert], [update], [remove], [truncate] or [get] puts
    a record into the cache of a table: in a database built by calls from
    a fresh one every cache is empty, and [get] of an id that no pending
    update or insert holds goes to the files. *)
Theorem cache_stays_empty (cs : list Call) (table : string) (tbl : Table) :
  tables (run cs fresh) !! table = Some tbl ->
  cache tbl = []
  /\ forall id, id <> 0 ->
       find_row id (updates tbl) = None -> find_row id (inserts tbl) = None ->
       get table (Some id) (run cs fresh)
       = (scan_files (run cs fresh) table id, run cs fresh).
Proof.
  intros Ht.
  assert (Hc : cache tbl = []).
  { apply (run_cache cs fresh) with (table := table); [|exact Ht].
    intros t tb. simpl. rewrite lookup_empty. discriminate. }
  split; [exact Hc|]. intros id Hid Hu Hi.
  rewrite (get_unbuffered table id _ tbl Hid Ht Hu Hi), Hc. reflexivity.
Qed.

Lemma cache_stays_empty_witness : cache customers_table = [].
Proof.
  apply (cache_stays_empty three_inserts "customers" customers_table).
  vm_compute. reflexivity.
Defined.

(** ** Tables that do not exist, and the memory probe *)





(** ** What [remove] and [update] do to the buffers *)

Lemma array_findIndex_none {A} (p : A -> bool) (l : list A) :
  array_find p l = None -> array_findIndex p l = -1.
Proof. apply findIndex_from_none. Qed.

Lemma array_findIndex_split {A} (p : A -> bool) (l : list A) (x : A) :
  array_find p l = Some x ->
  exists l1 l2,
    l = l1 ++ x :: l2 /\ array_find p l1 = None
    /\ array_findIndex p l = Z.of_nat (length l1).
Proof.
  intros H. destruct (findIndex_from_split p l x 0 H) as (l1 & l2 & E & Hn & Hi).
  exists l1, l2. unfold array_findIndex. rewrite Hi. auto.
Qed.

(** X6. [remove] of an id on an existing table returns [true]. If a
    pending insert holds the id, the first such record is taken out of
    [inserts] and nothing is queued; if none does, the id is queued at the
    end of [removals] and [inserts] stays. [updates] and [lastId] stay in
    both cases, so a pending update of the id outlives the removal. *)
Theorem remove_takes_pending_insert (now dateNow : Z) (table : string) (n : Z)
  (db : DB) (tbl : Table) :
  tables db !! table = Some tbl -> n <> 0 ->
  exists db' tbl',
    remove now dateNow table (Some n) db = (Returned true, db')
    /\ tables db' !! table = Some tbl'
    /\ updates tbl' = updates tbl /\ lastId tbl' = lastId tbl
    /\ match find_row n (inserts tbl) with
       | Some r =>
           exists l1 l2,
             inserts tbl = l1 ++ r :: l2 /\ find_row n l1 = None
             /\ inserts tbl' = l1 ++ l2 /\ removals tbl' = removals tbl
       | None =>
           inserts tbl' = inserts tbl /\ removals tbl' = removals tbl ++ [n]
       end.
Proof.
  intros Ht Hn. exists (written now dateNow table (removed n tbl) db), (removed n tbl).
  split; [apply remove_exact; assumption|].
  split; [rewrite written_tables; apply lookup_insert_eq|].
  unfold removed, find_row.
  destruct (array_find (fun item => js_eq (row_id item) n) (inserts tbl))
    as [r|] eqn:E.
  - destruct (array_findIndex_split _ _ _ E) as (l1 & l2 & El & Hl1 & Hi).
    rewrite Hi. destruct (Z.eqb_spec (Z.of_nat (length l1)) (-1)); [lia|].
    simpl. repeat split. exists l1, l2.
    rewrite El at 2. rewrite Nat2Z.id, splice1_middle. auto.
  - rewrite (array_findIndex_none _ _ E). simpl. auto.
Qed.

Lemma remove_takes_pending_insert_witness :
  exists db' tbl',
    remove 6 6 "customers" (Some 2) three_customers = (Returned true, db')
    /\ tables db' !! "customers" = Some tbl'
    /\ map row_id (inserts tbl') = [Some 1; Some 3] /\ removals tbl' = [].
Proof.
  destruct (remove_takes_pending_insert 6 6 "customers" 2 three_customers
              customers_table) as (db' & tbl' & E & Ht & _ & _ & H);
    [vm_compute; reflexivity | lia |].
  exists db', tbl'. split; [exact E|]. split; [exact Ht|].
  vm_compute in E. injection E as <-.
  vm_compute in Ht. injection Ht as <-.
  split; reflexivity.
Defined.

(** X7. [update] with a record whose id passes the test, on an existing
    table: if a pending insert holds the id, the first such record is
    replaced in place and [updates] stays; if none does, the record goes
    to the end of [updates] and [inserts] stays. [removals] and [lastId]
    stay in both cases. *)
Theorem update_replaces_pending_insert (now dateNow : Z) (table : string)
  (data : Row) (id : Z) (db : DB) (tbl : Table) :
  tables db !! table = Some tbl -> row_id data = Some id -> id <> 0 ->
  exists db' tbl',
    update now dateNow table data db = (Returned Undefined, db')
    /\ tables db' !! table = Some tbl'
    /\ removals tbl' = removals tbl /\ lastId tbl' = lastId tbl
    /\ match find_row id (inserts tbl) with
       | Some r =>
           exists l1 l2,
             inserts tbl = l1 ++ r :: l2 /\ find_row id l1 = None
             /\ inserts tbl' = l1 ++ data :: l2 /\ updates tbl' = updates tbl
       | None =>
           inserts tbl' = inserts tbl /\ updates tbl' = updates tbl ++ [data]
       end.
Proof.
  intros Ht Hd Hid.
  exists (written now dateNow table (updated id data tbl) db), (updated id data tbl).
  split; [apply update_exact; assumption|].
  split; [rewrite written_tables; apply lookup_insert_eq|].
  unfold updated, find_row.
  destruct (array_find (fun item => js_eq (row_id item) id) (inserts tbl))
    as [r|] eqn:E.
  - destruct (array_findIndex_split _ _ _ E) as (l1 & l2 & El & Hl1 & Hi).
    rewrite Hi. destruct (Z.eqb_spec (Z.of_nat (length l1)) (-1)); [lia|].
    simpl. repeat split. exists l1, l2.
    rewrite El at 2. rewrite Nat2Z.id, insert_middle. auto.
  - rewrite (array_findIndex_none _ _ E). simpl. auto.
Qed.

Lemma update_replaces_pending_insert_witness :
  exists db' tbl',
    update 6 6 "customers" (mkRow (Some 2) [("name", VStr "Z")]) three_customers
    = (Returned Undefined, db')
    /\ tables db' !! "customers" = Some tbl'
    /\ map row_fields (inserts tbl')
       = [[("name", VStr "A")]; [("name", VStr "Z")]; [("name", VStr "C")]]
    /\ updates tbl' = [].
Proof.
  destruct (update_replaces_pending_insert 6 6 "customers"
              (mkRow (Some 2) [("name", VStr "Z")]) 2 three_customers
              customers_table) as (db' & tbl' & E & Ht & _ & _ & H);
    [vm_compute; reflexivity | reflexivity | lia |].
  exists db', tbl'. split; [exact E|]. split; [exact Ht|].
  vm_compute in E. injection E as <-.
  vm_compute in Ht. injection Ht as <-.
  split; reflexivity.
Defined.

(** ** What [truncate] leaves in memory *)

(** X9. [truncate] of an existing table returns and takes nothing out of
    the buffers in memory: the pending inserts, updates and removals of
    the table stay, also those with an id above the threshold, and so do
    [items] and the cache. Of the table only [lastId] and the marker
    change, both to the threshold, and no other table changes. *)
Theorem truncate_keeps_buffers (now dateNow : Z) (table : string)
  (start : option Z) (db : DB) (tbl : Table) :
  tables db !! table = Some tbl ->
  let k := default 0 start in
  exists r db' tbl',
    truncate now dateNow table start db = (Returned r, db')
    /\ tables db' !! table = Some tbl'
    /\ inserts tbl' = inserts tbl /\ updates tbl' = updates tbl
    /\ removals tbl' = removals tbl
    /\ items tbl' = items tbl /\ cache tbl' = cache tbl
    /\ beforeLastId tbl' = beforeLastId tbl
    /\ lastId tbl' = k /\ truncateAt tbl' = k
    /\ forall other, other <> table -> tables db' !! other = tables db !! other.
Proof.
  intros Ht k. pose proof (truncate_cases now dateNow table start db) as H.
  simpl in H. rewrite Ht in H. fold k in H.
  eexists _, _, (truncated k tbl). split; [exact H|].
  split; [simpl; apply lookup_insert_eq|]. repeat split.
  intros other Hne. simpl. apply lookup_insert_ne. congruence.
Qed.

Lemma truncate_keeps_buffers_witness :
  exists r db' tbl',
    truncate 6 6 "customers" (Some 1) three_customers = (Returned r, db')
    /\ tables db' !! "customers" = Some tbl'
    /\ map row_id (inserts tbl') = [Some 1; Some 2; Some 3].
Proof.
  destruct (truncate_keeps_buffers 6 6 "customers" (Some 1) three_customers
              customers_table) as (r & db' & tbl' & E & Ht & Hi & _);
    [vm_compute; reflexivity|].
  exists r, db', tbl'. split; [exact E|]. split; [exact Ht|].
  rewrite Hi. reflexivity.
Defined.

(** ** The scheduler after a mutation *)

(** Under a second after the last write, with the forced flag clear,
    nothing is due. *)
Lemma asyncPersistData_quiet (now dateNow : Z) (db : DB) :
  lastWrite db = Some now -> worthPersistingNow db = false ->
  dateNow < now + 1000 ->
  asyncPersistData dateNow db
  = (Returned tt,
     with_timeout (Some ((if 1000 <? writes db then 1 else 60) * 1000)) db).
Proof.
  intros Hl Hw Hlt. unfold_M. rewrite Hl, Hw.
  assert (normalRunDue (writes db) (Some now) dateNow = false) as ->.
  { apply not_true_iff_false. rewrite normalRunDue_iff. lia. }
  assert (longRunDue (writes db) (Some now) dateNow = false) as ->.
  { apply not_true_iff_false. rewrite longRunDue_iff. lia. }
  assert (shortRunDue (writes db) (Some now) dateNow = false) as ->.
  { apply not_true_iff_false. rewrite shortRunDue_iff. lia. }
  reflexivity.
Qed.

Lemma written_quiet (now dateNow : Z) (table : string) (tbl' : Table) (db : DB) :
  worthPersistingNow db = false -> dateNow < now + 1000 ->
  quiet now db (written now dateNow table tbl' db).
Proof.
  intros Hw Hlt. unfold written.
  rewrite (asyncPersistData_quiet now) by (simpl; auto).
  unfold quiet. simpl. auto.
Qed.

(** X10. A call of [insert], [update] or [remove] that returns, made with
    the forced flag clear and with less than a second between its two
    readings of the clock, does not call [persistData]: it counts one
    write, notes the time, and arms the timer, with one second when more
    than 1000 writes are counted and sixty seconds when not. *)
Theorem mutation_arms_timer (now dateNow : Z) (table : string) (db db' : DB) :
  worthPersistingNow db = false -> dateNow < now + 1000 ->
  (forall freemem data id,
     insert freemem now dateNow table data db = (Returned id, db') ->
     quiet now db db')
  /\ (forall data r,
        update now dateNow table data db = (Returned r, db') -> quiet now db db')
  /\ (forall id r,
        remove now dateNow table id db = (Returned r, db') -> quiet now db db').
Proof.
  intros Hw Hlt. split; [|split].
  - intros freemem data id H.
    destruct (insert_cases freemem now dateNow table data db)
      as [[E _] | [[E _] | (d & _ & _ & _ & _ & _ & Hmem & Hinh)]];
      [congruence | congruence |].
    rewrite (insert_exact _ _ _ _ _ _ Hmem Hinh) in H. injection H as _ <-.
    apply written_quiet; assumption.
  - intros data r H.
    pose proof (update_cases now dateNow table data db) as Hc.
    destruct (row_id data) as [id|] eqn:Hd; [|congruence].
    destruct (Z.eqb_spec id 0) as [|Hid]; [congruence|].
    destruct (tables db !! table) as [tbl|] eqn:Ht; [|congruence].
    rewrite (update_exact _ _ _ _ _ _ _ Ht Hd Hid) in H. injection H as _ <-.
    apply written_quiet; assumption.
  - intros id r H.
    pose proof (remove_cases now dateNow table id db) as Hc.
    destruct id as [n|]; [|congruence].
    destruct (Z.eqb_spec n 0) as [|Hid]; [congruence|].
    destruct (tables db !! table) as [tbl|] eqn:Ht; [|congruence].
    rewrite (remove_exact _ _ _ _ _ _ Ht Hid) in H. injection H as _ <-.
    apply written_quiet; assumption.
Qed.

Lemma mutation_arms_timer_witness : quiet 5 fresh one_customer.
Proof.
  apply (proj1 (mutation_arms_timer 5 5 "customers" fresh one_customer
                  eq_refl ltac:(lia)) plenty (customer "A") 1).
  vm_compute. reflexivity.
Defined.

(** X11. After a run of the scheduler the forced flag is clear, whatever
    the scheduler decided: the flag set by [truncate] serves one run. *)
Theorem forced_flag_serves_once (dateNow : Z) (db : DB) :
  worthPersistingNow (asyncPersistData dateNow db).2 = false.
Proof.
  unfold_M.
  destruct (normalRunDue _ _ _ || longRunDue _ _ _ || shortRunDue _ _ _
            || worthPersistingNow db) eqn:E; simpl; [reflexivity|].
  apply orb_false_iff in E as [_ E]. exact E.
Qed.

(** ** [getAll] *)

Lemma scan_all_returned (buffer : nat -> Unpacked) (lines : list string)
  (until : Z) (k : nat) (found items : list Unpacked) :
  scan_all buffer lines until k found = Returned items ->
  exists more,
    items = found ++ more
    /\ (length more <= length lines)%nat
    /\ Forall (fun x => x <> UNullish) more.
Proof.
  revert k found. induction lines as [|next lines IH]; intros k found; simpl.
  { intros [= <-]. exists []. rewrite app_nil_r.
    repeat split; simpl; auto. }
  assert (Hstop : Returned found = Returned items ->
          exists more, items = found ++ more
            /\ (length more <= S (length lines))%nat
            /\ Forall (fun x => x <> UNullish) more).
  { intros [= <-]. exists []. rewrite app_nil_r.
    repeat split; simpl; auto; lia. }
  destruct (parseInt next) as [len|]; [|exact Hstop].
  destruct (len =? 0); [exact Hstop|]. clear Hstop.
  destruct (buffer k) as [r'| |]; [| |discriminate].
  - destruct (js_eq (row_id r') until) eqn:E.
    + intros [= <-]. exists [URow r']. repeat split; simpl.
      * lia.
      * repeat constructor. discriminate.
    + intros H. apply IH in H as (more & -> & Hlen & Hall).
      exists (URow r' :: more). rewrite <- app_assoc. repeat split; simpl.
      * lia.
      * constructor; [discriminate | exact Hall].
  - intros H. apply IH in H as (more & -> & Hlen & Hall).
    exists (UPrimitive :: more). rewrite <- app_assoc. repeat split; simpl.
    + lia.
    + constructor; [discriminate | exact Hall].
Qed.

(** X12. When [getAll] returns, the index file and the table file of the
    table exist, the database object is as before, and the items are at
    most as many as the index file has lines after its first. No item is
    [undefined] or [null]. The tables in memory have no part in it: a
    database object with the same files and the same buffer contents
    gives the same items, whatever is pending in it. *)
Theorem getAll_reads_index_lines (table : string) (until : option Z)
  (db db' : DB) (found : list Unpacked) :
  getAll table until db = (Returned found, db') ->
  db' = db
  /\ (exists f lines,
        files_of (disk db) table = Some f /\ index f = Some lines
        /\ db_present f = true
        /\ (length found <= length (tail lines))%nat)
  /\ Forall (fun x => x <> UNullish) found
  /\ forall db2,
       disk db2 = disk db -> scanBuffer db2 = scanBuffer db ->
       getAll table until db2 = (Returned found, db2).
Proof.
  unfold getAll. intros [= H <-]. split; [reflexivity|].
  split; [|split].
  - destruct (files_of (disk db) table) as [f|]; [|discriminate].
    destruct (index f) as [lines|] eqn:Ei; [|discriminate].
    destruct (db_present f) eqn:Ep; [|discriminate].
    apply scan_all_returned in H as (more & -> & Hlen & Hall).
    exists f, lines. auto.
  - destruct (files_of (disk db) table) as [f|]; [|discriminate].
    destruct (index f) as [lines|]; [|discriminate].
    destruct (db_present f); [|discriminate].
    apply scan_all_returned in H as (more & -> & _ & Hall). exact Hall.
  - intros db2 -> ->. rewrite H. reflexivity.
Qed.

(** After startup on the three records on file, and again with the three
    customers removed in memory, [getAll] gives three items, none of
    them a record. *)
Lemma getAll_reads_index_lines_witness :
  getAll "customers" None reopened
  = (Returned [UPrimitive; UPrimitive; UPrimitive], reopened)
  /\ getAll "customers" None two_removals
     = (Returned [UPrimitive; UPrimitive; UPrimitive], two_removals).
Proof.
  assert (H : getAll "customers" None reopened
              = (Returned [UPrimitive; UPrimitive; UPrimitive], reopened))
    by (vm_compute; reflexivity).
  split; [exact H|].
  apply (proj2 (proj2 (proj2 (getAll_reads_index_lines _ _ _ _ _ H))));
    vm_compute; reflexivity.
Defined.

(** ** The row container: pushing and reading back *)











(** ** The row container: removing, searching, resizing *)

Lemma array_get_past {A} (j : nat) (arr : list (option A)) :
  (length arr <= j)%nat -> array_get j arr = None.
Proof. intros H. unfold array_get. rewrite lookup_ge_None_2; auto. Qed.

Lemma array_get_clear {A} (i j : nat) (arr : list (option A)) :
  array_get j (array_clear i arr)
  = if decide (j = i) then None else array_get j arr.
Proof.
  unfold array_clear. destruct (Nat.ltb_spec i (length arr)) as [Hlt|Hge].
  - unfold array_get. rewrite list_lookup_insert by assumption.
    destruct (decide (i = j /\ (i < length arr)%nat)) as [[Heq _]|Hd];
      destruct (decide (j = i)) as [Hd'|Hd']; try reflexivity; lia.
  - case_decide as Hd.
    + subst j. unfold array_get. rewrite lookup_app_r by assumption.
      rewrite lookup_replicate_2 by lia. reflexivity.
    + destruct (Nat.lt_ge_cases j (length arr)) as [Hj|Hj].
      * unfold array_get. rewrite lookup_app_l by assumption. reflexivity.
      * rewrite (array_get_past j arr Hj). unfold array_get.
        rewrite lookup_app_r by assumption.
        destruct (replicate _ None !! _) as [x|] eqn:E; [|reflexivity].
        apply lookup_replicate in E as [-> _]. reflexivity.
Qed.

(** X14. [remove(index)] makes [get(index)] give [undefined] and leaves
    what [get] gives at every other index; the directory stays, and the
    container does not get shorter: no later entry moves to another
    index. *)
Theorem remove_clears_one_index (index j : nat) (s : EffSet.t) :
  EffSet.get index (EffSet.remove index s) = None
  /\ (j <> index -> EffSet.get j (EffSet.remove index s) = EffSet.get j s)
  /\ EffSet.fields (EffSet.remove index s) = EffSet.fields s
  /\ (EffSet.get_length s <= EffSet.get_length (EffSet.remove index s))%nat.
Proof.
  unfold EffSet.get, EffSet.remove, EffSet.get_length. simpl.
  rewrite !array_get_clear. split; [|split; [|split]].
  - case_decide; [reflexivity | contradiction].
  - intros Hj. case_decide; [contradiction | reflexivity].
  - reflexivity.
  - unfold array_clear. destruct (_ <? _)%nat.
    + rewrite length_insert. lia.
    + rewrite length_app. lia.
Qed.

Lemma findIndex_from_spec (func : option object -> bool) (s : EffSet.t)
  (n i : nat) :
  match EffSet.findIndex_from func s n i with
  | Some k =>
      (i <= k < i + n)%nat /\ func (EffSet.get k s) = true
      /\ forall j, (i <= j < k)%nat -> func (EffSet.get j s) = false
  | None => forall j, (i <= j < i + n)%nat -> func (EffSet.get j s) = false
  end.
Proof.
  revert i. induction n as [|n IH]; intros i; simpl.
  { intros j Hj. lia. }
  destruct (func (EffSet.get i s)) eqn:E.
  - split; [lia|]. split; [exact E|]. intros j Hj. lia.
  - specialize (IH (S i)).
    destruct (EffSet.findIndex_from func s n (S i)) as [k|].
    + destruct IH as (Hk & Hf & Hb). split; [lia|]. split; [exact Hf|].
      intros j Hj. destruct (decide (j = i)) as [->|]; [exact E|].
      apply Hb. lia.
    + intros j Hj. destruct (decide (j = i)) as [->|]; [exact E|].
      apply IH. lia.
Qed.

Lemma find_from_findIndex_from (func : option object -> bool) (s : EffSet.t)
  (n i : nat) :
  EffSet.find_from func s n i
  = match EffSet.findIndex_from func s n i with
    | Some k => EffSet.get k s
    | None => None
    end.
Proof.
  revert i. induction n as [|n IH]; intros i; simpl; [reflexivity|].
  destruct (func (EffSet.get i s)); [reflexivity | apply IH].
Qed.

(** X15. [findIndex(func)] gives the first index at which what [get]
    gives satisfies [func], an index of the entries array, and [undefined]
    when there is none; [find(func)] gives what [get] gives at that index.
    [func] is also asked about the removed and the empty slots, with
    [undefined]. *)
Theorem find_is_get_at_findIndex (func : option object -> bool) (s : EffSet.t) :
  EffSet.find func s
  = match EffSet.findIndex func s with
    | Some k => EffSet.get k s
    | None => None
    end
  /\ match EffSet.findIndex func s with
     | Some k =>
         (k < EffSet.get_length s)%nat /\ func (EffSet.get k s) = true
         /\ forall j, (j < k)%nat -> func (EffSet.get j s) = false
     | None =>
         forall j, (j < EffSet.get_length s)%nat -> func (EffSet.get j s) = false
     end.
Proof.
  split; [apply find_from_findIndex_from|].
  unfold EffSet.findIndex, EffSet.get_length.
  pose proof (findIndex_from_spec func s (length (EffSet.entries s)) 0) as H.
  destruct (EffSet.findIndex_from func s (length (EffSet.entries s)) 0) as [k|].
  - destruct H as (Hk & Hf & Hb). split; [lia|]. split; [exact Hf|].
    intros j Hj. apply Hb. lia.
  - intros j Hj. apply H. lia.
Qed.

Lemma array_get_resize {A} (n j : nat) (arr : list (option A)) :
  array_get j (array_resize n arr)
  = if (j <? n)%nat then array_get j arr else None.
Proof.
  unfold array_resize. destruct (Nat.ltb_spec j n) as [Hlt|Hge].
  - destruct (Nat.lt_ge_cases j (length arr)) as [Hj|Hj].
    + unfold array_get.
      rewrite lookup_app_l by (rewrite length_take; lia).
      rewrite lookup_take_lt by assumption. reflexivity.
    + rewrite (array_get_past j arr Hj). unfold array_get.
      rewrite lookup_app_r by (rewrite length_take; lia).
      destruct (replicate _ None !! _) as [x|] eqn:E; [|reflexivity].
      apply lookup_replicate in E as [-> _]. reflexivity.
  - apply array_get_past. rewrite length_app, length_take, length_replicate. lia.
Qed.

(** X16. Setting [length] to [n] makes the container [n] entries long:
    [get] below [n] gives what it gave, [get] from [n] on gives
    [undefined], and the directory stays. *)
Theorem set_length_cuts_or_grows (n j : nat) (s : EffSet.t) :
  EffSet.get_length (EffSet.set_length n s) = n
  /\ EffSet.get j (EffSet.set_length n s)
     = (if (j <? n)%nat then EffSet.get j s else None)
  /\ EffSet.fields (EffSet.set_length n s) = EffSet.fields s.
Proof.
  unfold EffSet.get_length, EffSet.get, EffSet.set_length. simpl.
  split; [|split; [|reflexivity]].
  - unfold array_resize. rewrite length_app, length_take, length_replicate. lia.
  - rewrite array_get_resize. destruct (j <? n)%nat; reflexivity.
Qed.

(** ** Startup: the memory floor and the tables recovered *)

(** X18. The memory floor that [initialize] computes lies between 64 MiB
    and 1 GiB whatever the machine has, it is the six percent of the total
    memory when those lie in between, and the figure in MiB that is logged
    lies between 64 and 1024. *)
Theorem leastfree_is_clamped (six_percent : Z) :
  let leastfree := leastfree_of six_percent in
  64 * 1024 * 1024 <= leastfree <= 1024 * 1024 * 1024
  /\ (64 * 1024 * 1024 <= six_percent <= 1024 * 1024 * 1024 ->
      leastfree = six_percent)
  /\ 64 <= leastfreemib_of leastfree <= 1024.
Proof.
  cbv zeta. unfold leastfree_of, leastfreemib_of.
  assert (H : 64 * 1024 * 1024
              <= Z.min (1024 * 1024 * 1024) (Z.max (64 * 1024 * 1024) six_percent)
              <= 1024 * 1024 * 1024) by lia.
  split; [exact H|]. split; [lia|].
  rewrite Z.div_div by lia.
  split.
  - apply Z.div_le_lower_bound; lia.
  - apply Z.div_le_upper_bound; lia.
Qed.

Lemma leastfree_is_clamped_witness :
  leastfree_of (100 * 1024 * 1024) = 100 * 1024 * 1024.
Proof.
  apply (proj1 (proj2 (leastfree_is_clamped (100 * 1024 * 1024)))). lia.
Defined.



